(** * kpmcore: delete operation, libparted scan, ext2 support and LVM move job

    A shallow embedding of four translation units of kpmcore,

    - [src/fs/ext2.cpp]                          ([Module Ext2]),
    - [src/jobs/movephysicalvolumejob.cpp]       ([Module MovePhysicalVolumeJob]),
    - [src/ops/deleteoperation.cpp]              ([Module DeleteOperation]),
    - [src/plugins/libparted/libpartedbackend.cpp] ([Module LibPartedBackend]),

    over a common model of partition roles, file systems and the partition
    tree.  The first half of the file holds the definitions, the second half
    the properties proved about them. *)

From Stdlib Require Import ZArith List Bool String Sorted Lia.
Import ListNotations.
Open Scope Z_scope.

(* ================================================================= *)
(** * Part I: the model *)
(* ================================================================= *)

(** ** Partition roles

    [PartitionRole::Roles] is a flag set; [roles().has(r)] tests one flag.
    The set is kept as the list of the flags that are raised;
    [PartitionRole::None] is the empty set. *)

Module PartitionRole.

Inductive Role : Type :=
| Primary
| Extended
| Logical
| Unallocated
| Luks.

Definition Roles : Type := list Role.

Definition None : Roles := [].

Definition eqb (a b : Role) : bool :=
  match a, b with
  | Primary, Primary
  | Extended, Extended
  | Logical, Logical
  | Unallocated, Unallocated
  | Luks, Luks => true
  | _, _ => false
  end.

(** [PartitionRole::has] *)
Definition has (rs : Roles) (r : Role) : bool := existsb (eqb r) rs.

End PartitionRole.

(** ** External commands

    [ExternalCommand::run] reports whether the program could be run at all,
    [exitCode] what it returned. *)

Module ExternalCommand.

Record t : Type := mk {
  run : bool;
  exitCode : Z
}.

End ExternalCommand.

(** ** fs/ext2.cpp *)

Module Ext2.

(** The twelve static members [ext2::m_GetUsed] ... [ext2::m_GetUUID]. *)
Record Support : Type := mkSupport {
  m_GetUsed : Z;
  m_GetLabel : Z;
  m_Create : Z;
  m_Grow : Z;
  m_Shrink : Z;
  m_Move : Z;
  m_Check : Z;
  m_Copy : Z;
  m_Backup : Z;
  m_SetLabel : Z;
  m_UpdateUUID : Z;
  m_GetUUID : Z
}.

Section Init.

(** The enumerators of [FileSystem::CommandSupportType] are declared in
    fs/filesystem.h, which is not among the sources: they are parameters of
    the model. *)
Variables cmdSupportNone cmdSupportCore cmdSupportFileSystem : Z.

(** [findExternal(cmd, args)]: can the helper program be run on this
    machine?  The second argument is [None] where the call leaves the
    argument list to its default. *)
Variable findExternal : string -> option (list string) -> bool.

Definition tool (name : string) : Z :=
  if findExternal name Datatypes.None then cmdSupportFileSystem else cmdSupportNone.

(** An enumerator used as an operand of [&&] converts to [bool]: zero is
    false. *)
Definition as_bool (v : Z) : bool := negb (v =? 0).

(** [ext2::init].  The statements are kept in source order; [m_Shrink] is
    computed as the source parenthesises it,
    [(m_Grow != cmdSupportNone && m_GetUsed) != cmdSupportNone]:
    the conjunction is a [bool], promoted to an integer for the comparison. *)
Definition init : Support :=
  let getUsed := tool "dumpe2fs" in
  let getLabel := cmdSupportCore in
  let setLabel := tool "e2label" in
  let create := tool "mkfs.ext2" in
  let check :=
    if findExternal "e2fsck" (Some ["-V"%string])
    then cmdSupportFileSystem else cmdSupportNone in
  let updateUUID := tool "tune2fs" in
  let grow :=
    if negb (check =? cmdSupportNone) && findExternal "resize2fs" Datatypes.None
    then cmdSupportFileSystem else cmdSupportNone in
  let shrink :=
    if negb (Z.b2z (negb (grow =? cmdSupportNone) && as_bool getUsed)
             =? cmdSupportNone)
    then cmdSupportFileSystem else cmdSupportNone in
  let copy := if negb (check =? cmdSupportNone) then cmdSupportCore else cmdSupportNone in
  let move := if negb (check =? cmdSupportNone) then cmdSupportCore else cmdSupportNone in
  let backup := cmdSupportCore in
  let getUUID := cmdSupportCore in
  {| m_GetUsed := getUsed; m_GetLabel := getLabel; m_Create := create;
     m_Grow := grow; m_Shrink := shrink; m_Move := move; m_Check := check;
     m_Copy := copy; m_Backup := backup; m_SetLabel := setLabel;
     m_UpdateUUID := updateUUID; m_GetUUID := getUUID |}.

(** A capability is supported when its flag is not [cmdSupportNone]. *)
Definition supported (flag : Z) : Prop := flag <> cmdSupportNone.

End Init.

Section Check.

(** Running a program with its arguments. *)
Variable execute : string -> list string -> ExternalCommand.t.

(** [ext2::check].  [&&] reads the exit code only of a command that ran. *)
Definition check (deviceNode : string) : bool :=
  let cmd := execute "e2fsck" ["-f"; "-y"; "-v"; deviceNode]%string in
  ExternalCommand.run cmd
  && ((ExternalCommand.exitCode cmd =? 0)
      || (ExternalCommand.exitCode cmd =? 1)
      || (ExternalCommand.exitCode cmd =? 2)
      || (ExternalCommand.exitCode cmd =? 256)).

End Check.

End Ext2.

(** ** jobs/movephysicalvolumejob.cpp *)

Module MovePhysicalVolumeJob.

(** [QStringList::contains] and [QStringList::removeAll]. *)
Definition contains (l : list string) (s : string) : bool :=
  existsb (String.eqb s) l.

Definition removeAll (s : string) (l : list string) : list string :=
  filter (fun x => negb (String.eqb x s)) l.

Section Run.

(** The state of the volume group (and of the report the job writes to);
    [LvmDevice::getPVs] reads it, [LvmDevice::movePV] changes it. *)
Variable Lvm : Type.
Variable getPVs : Lvm -> string -> list string.
Variable movePV : Lvm -> string -> list string -> bool * Lvm.

(** First loop of [run]: every path of the move list is taken out of the
    destinations. *)
Definition destinationsFor (pvs partList : list string) : list string :=
  fold_left
    (fun destinations partPath =>
       if contains destinations partPath
       then removeAll partPath destinations
       else destinations)
    partList pvs.

(** One [LvmDevice::movePV] call, as the job issues it. *)
Record Call : Type := mkCall {
  partPath : string;
  offered : list string
}.

(** What [run] leaves behind: its return value, the state of the volume
    group and the [movePV] calls it made, oldest first. *)
Record Outcome : Type := mkOutcome {
  rval : bool;
  lvm : Lvm;
  calls : list Call
}.

(** Second loop of [run]: [break] on the first move that fails. *)
Fixpoint moveLoop (destinations : list string) (partList : list string)
  (acc : Outcome) : Outcome :=
  match partList with
  | [] => acc
  | partPath :: rest =>
      let '(r, lvm') := movePV (lvm acc) partPath destinations in
      let acc' := {| rval := r; lvm := lvm';
                     calls := calls acc ++ [mkCall partPath destinations] |} in
      if r then moveLoop destinations rest acc' else acc'
  end.

(** [MovePhysicalVolumeJob::run] *)
Definition run (st : Lvm) (deviceName : string) (partList : list string) : Outcome :=
  let destinations := destinationsFor (getPVs st deviceName) partList in
  moveLoop destinations partList {| rval := false; lvm := st; calls := [] |}.

(** Every path of [l], moved in order from [st], succeeds and leaves [st']. *)
Inductive allMoved (destinations : list string) : Lvm -> list string -> Lvm -> Prop :=
| allMoved_nil st : allMoved destinations st [] st
| allMoved_cons st st' st'' p l :
    movePV st p destinations = (true, st') ->
    allMoved destinations st' l st'' ->
    allMoved destinations st (p :: l) st''.

End Run.

Arguments mkOutcome {Lvm}.
Arguments rval {Lvm}.
Arguments lvm {Lvm}.
Arguments calls {Lvm}.
Arguments moveLoop {Lvm}.
Arguments run {Lvm}.
Arguments allMoved {Lvm}.

End MovePhysicalVolumeJob.

(** ** File systems

    A [FileSystem] object has a type tag; an object of the subclass
    [FS::luks] carries the state of the encrypted container as well.
    Labels, UUIDs and used sectors are not modelled: nothing below reads
    them. *)

Module FileSystem.

Inductive Type_ : Type :=
| Unknown
| Extended
| Ext2
| Fat16
| Hfs
| HfsPlus
| Luks.

Definition Type_eqb (a b : Type_) : bool :=
  match a, b with
  | Unknown, Unknown
  | Extended, Extended
  | Ext2, Ext2
  | Fat16, Fat16
  | Hfs, Hfs
  | HfsPlus, HfsPlus
  | Luks, Luks => true
  | _, _ => false
  end.

(** The members of [FS::luks] the sources touch: [setCryptOpen],
    [setMounted], and the mapper node [loadInnerFilesystem] was given, if it
    was called. *)
Record luks : Type := mkLuks {
  isCryptOpen : bool;
  isMounted : bool;
  innerFs : option string
}.

(** [asLuks] is [dynamic_cast<FS::luks*>]: [None] for an object of another
    class. *)
Record t : Type := mk {
  type : Type_;
  firstSector : Z;
  lastSector : Z;
  asLuks : option luks
}.

Definition withLuks (f : luks -> luks) (fs : t) : t :=
  mk (type fs) (firstSector fs) (lastSector fs) (option_map f (asLuks fs)).

Definition setCryptOpen (b : bool) : t -> t :=
  withLuks (fun l => mkLuks b (isMounted l) (innerFs l)).

Definition setMounted (b : bool) : t -> t :=
  withLuks (fun l => mkLuks (isCryptOpen l) b (innerFs l)).

Definition loadInnerFilesystem (mapperNode : string) : t -> t :=
  withLuks (fun l => mkLuks (isCryptOpen l) (isMounted l) (Some mapperNode)).

End FileSystem.

(** Modelled from the spec: [FileSystemFactory::create] (fs/filesystemfactory.cpp
    is not among the sources) constructs the typed FileSystem object for a
    sector range; for the type Luks that is an [FS::luks], closed and not
    mounted. *)
Definition FileSystemFactory_create (type : FileSystem.Type_) (first last : Z)
  : FileSystem.t :=
  FileSystem.mk type first last
    (if FileSystem.Type_eqb type FileSystem.Luks
     then Some (FileSystem.mkLuks false false Datatypes.None)
     else Datatypes.None).

(** ** The partition tree

    A [PartitionNode] is the partition table or a partition.  The table owns
    the primary and extended partitions, an extended partition owns its
    logical ones, and free space between siblings is held by nodes of the
    role Unallocated.

    Pointers into the tree become paths: the empty path is the partition
    table, and a partition is named by its parent's path followed by its own
    first sector, which no two real partitions under one parent share.
    Unallocated nodes are thrown away and made anew whenever the free space
    is recomputed, so no pointer to one is ever kept and a path never names
    one. *)

Definition NodeRef : Type := list Z.

Module Partition.

#[warnings="-register-all"]
Inductive t : Type := mk {
  parent : NodeRef;
  roles : PartitionRole.Roles;
  fileSystem : FileSystem.t;
  firstSector : Z;
  lastSector : Z;
  partitionPath : string;
  number : Z;
  mountPoint : string;
  isMounted : bool;
  children : list t
}.

Definition setChildren (cs : list t) (p : t) : t :=
  mk (parent p) (roles p) (fileSystem p) (firstSector p) (lastSector p)
     (partitionPath p) (number p) (mountPoint p) (isMounted p) cs.

Definition setNumber (n : Z) (p : t) : t :=
  mk (parent p) (roles p) (fileSystem p) (firstSector p) (lastSector p)
     (partitionPath p) n (mountPoint p) (isMounted p) (children p).

Definition isUnallocated (p : t) : bool :=
  PartitionRole.has (roles p) PartitionRole.Unallocated.

(** [isNode k c]: does a pointer with last step [k] point to [c]? *)
Definition isNode (k : Z) (c : t) : bool :=
  negb (isUnallocated c) && (firstSector c =? k).

(** The path that names [p]. *)
Definition ref (p : t) : NodeRef := parent p ++ [firstSector p].

End Partition.

Module PartitionTable.

Record t : Type := mk {
  firstUsable : Z;
  lastUsable : Z;
  children : list Partition.t
}.

Definition setChildren (cs : list Partition.t) (pt : t) : t :=
  mk (firstUsable pt) (lastUsable pt) cs.

End PartitionTable.

(** What a [PartitionNode*] can point to; [None] of [option PartitionNode]
    is the null pointer. *)
Inductive PartitionNode : Type :=
| TableNode
| PartitionNode_ (p : Partition.t).

Definition nodeRef (n : PartitionNode) : NodeRef :=
  match n with
  | TableNode => []
  | PartitionNode_ p => Partition.ref p
  end.

Module PartitionNodes.

(** Change the first element that satisfies [pred]. *)
Fixpoint mapFirst {A : Type} (pred : A -> bool) (f : A -> A) (l : list A) : list A :=
  match l with
  | [] => []
  | x :: r => if pred x then f x :: r else x :: mapFirst pred f r
  end.

(** Drop the first element that satisfies [pred]. *)
Fixpoint removeFirst {A : Type} (pred : A -> bool) (l : list A) : list A :=
  match l with
  | [] => []
  | x :: r => if pred x then r else x :: removeFirst pred r
  end.

(** The partition a path leads to, from a list of siblings. *)
Fixpoint lookup (r : NodeRef) (cs : list Partition.t) : option Partition.t :=
  match r with
  | [] => Datatypes.None
  | k :: r' =>
      match find (Partition.isNode k) cs with
      | Some c =>
          match r' with
          | [] => Some c
          | _ :: _ => lookup r' (Partition.children c)
          end
      | Datatypes.None => Datatypes.None
      end
  end.

(** Apply [g] to the list of children of the node a path leads to. *)
Fixpoint modifyChildren (r : NodeRef)
  (g : list Partition.t -> list Partition.t) (cs : list Partition.t)
  : list Partition.t :=
  match r with
  | [] => g cs
  | k :: r' =>
      mapFirst (Partition.isNode k)
        (fun c => Partition.setChildren (modifyChildren r' g (Partition.children c)) c)
        cs
  end.

(** Modelled from the spec: [PartitionNode::append] (core/partitionnode.cpp
    is not among the sources) adds a node at the end of the children. *)
Definition append (p : Partition.t) (cs : list Partition.t) : list Partition.t :=
  cs ++ [p].

(** Modelled from the spec: [PartitionNode::remove] takes the node a pointer
    names out of the children. *)
Definition remove (p : Partition.t) (cs : list Partition.t) : list Partition.t :=
  removeFirst (Partition.isNode (Partition.firstSector p)) cs.

(** Modelled from the spec: [PartitionNode::insert] puts a node back among
    the children, which are ordered by sector: before the first child that
    starts after it. *)
Fixpoint insert (p : Partition.t) (cs : list Partition.t) : list Partition.t :=
  match cs with
  | [] => [p]
  | c :: r =>
      if Partition.firstSector p <? Partition.firstSector c
      then p :: c :: r
      else c :: insert p r
  end.

(** Modelled from the spec: [Partition::adjustLogicalNumbers] is not among
    the sources.  The spec has it shift the number of every Logical
    partition at or beyond a given number by one, down when a Logical
    partition was deleted and up when one is inserted.  Its two arguments
    are read off the call in [DeleteOperation::checkAdjustLogicalNumbers]:
    the first holds the number of a deleted partition, the second the number
    of an inserted one, and the slot that does not apply holds -1. *)
Definition adjustNumber (deletedNumber insertedNumber : Z) (c : Partition.t)
  : Partition.t :=
  if negb (PartitionRole.has (Partition.roles c) PartitionRole.Logical) then c
  else if negb (deletedNumber =? -1) && (deletedNumber <=? Partition.number c)
  then Partition.setNumber (Partition.number c - 1) c
  else if negb (insertedNumber =? -1) && (insertedNumber <=? Partition.number c)
  then Partition.setNumber (Partition.number c + 1) c
  else c.

Definition adjustLogicalNumbers (deletedNumber insertedNumber : Z)
  (cs : list Partition.t) : list Partition.t :=
  map (adjustNumber deletedNumber insertedNumber) cs.

(** Modelled from the spec: the Unallocated node that stands for the free
    sectors [first..last] under the node [r]. *)
Definition unallocated (r : NodeRef) (first last : Z) : Partition.t :=
  Partition.mk r [PartitionRole.Unallocated]
    (FileSystemFactory_create FileSystem.Unknown first last)
    first last "unallocated" (-1) EmptyString false [].

(** Modelled from the spec: [PartitionTable::removeUnallocated] takes every
    Unallocated node out of the tree. *)
Definition realOnly (cs : list Partition.t) : list Partition.t :=
  filter (fun c => negb (Partition.isUnallocated c)) cs.

Definition removeUnallocated (cs : list Partition.t) : list Partition.t :=
  realOnly (map (fun c => Partition.setChildren (realOnly (Partition.children c)) c) cs).

(** Modelled from the spec: [PartitionTable::insertUnallocated] represents
    every gap between siblings, before the first and after the last one, by
    an Unallocated node, so that the children cover the range [lo..hi] of
    their parent; the children of an Extended partition cover that
    partition. *)
Fixpoint fillGaps (r : NodeRef) (lo hi : Z) (cs : list Partition.t)
  : list Partition.t :=
  match cs with
  | [] => if lo <=? hi then [unallocated r lo hi] else []
  | c :: rest =>
      (if lo <? Partition.firstSector c
       then [unallocated r lo (Partition.firstSector c - 1)] else [])
      ++ c :: fillGaps r (Partition.lastSector c + 1) hi rest
  end.

Definition fillExtended (c : Partition.t) : Partition.t :=
  if PartitionRole.has (Partition.roles c) PartitionRole.Extended
  then Partition.setChildren
         (fillGaps (Partition.ref c) (Partition.firstSector c)
            (Partition.lastSector c) (Partition.children c)) c
  else c.

Definition insertUnallocated (lo hi : Z) (cs : list Partition.t)
  : list Partition.t :=
  fillGaps [] lo hi (map fillExtended cs).

(** Modelled from the spec: [PartitionTable::updateUnallocated] recomputes
    the Unallocated nodes of the whole table. *)
Definition updateUnallocated (pt : PartitionTable.t) : PartitionTable.t :=
  PartitionTable.setChildren
    (insertUnallocated (PartitionTable.firstUsable pt) (PartitionTable.lastUsable pt)
       (removeUnallocated (PartitionTable.children pt)))
    pt.

(** Modelled from the spec: [PartitionNode::findPartitionBySector], the
    spec's [findBySector].  A node matches when it has one of the roles of
    the filter and its range contains the sector.  The children of a
    partition are tried before the partition itself, which gives the
    innermost match; the table root is the answer when nothing matches. *)
Definition matches (s : Z) (role : PartitionRole.Roles) (c : Partition.t) : bool :=
  existsb (PartitionRole.has (Partition.roles c)) role
  && (Partition.firstSector c <=? s) && (s <=? Partition.lastSector c).

Fixpoint findPartitionBySector_in (cs : list Partition.t) (s : Z)
  (role : PartitionRole.Roles) : option Partition.t :=
  match cs with
  | [] => Datatypes.None
  | p :: rest =>
      match find (matches s role) (Partition.children p) with
      | Some child => Some child
      | Datatypes.None =>
          if matches s role p then Some p
          else findPartitionBySector_in rest s role
      end
  end.

Definition findPartitionBySector (pt : PartitionTable.t) (s : Z)
  (role : PartitionRole.Roles) : option PartitionNode :=
  match findPartitionBySector_in (PartitionTable.children pt) s role with
  | Some p => Some (PartitionNode_ p)
  | Datatypes.None => Some TableNode
  end.

(** The order [insert] keeps: strictly ascending first sectors. *)
Definition sortedBySector (cs : list Partition.t) : Prop :=
  StronglySorted (fun a b => Partition.firstSector a < Partition.firstSector b) cs.

End PartitionNodes.

Module Device.

Record t : Type := mk {
  deviceNode : string;
  partitionTable : PartitionTable.t
}.

Definition setPartitionTable (pt : PartitionTable.t) (d : t) : t :=
  mk (deviceNode d) pt.

(** Apply [g] to the children of the node [r] of the device's tree. *)
Definition modifyChildren (r : NodeRef)
  (g : list Partition.t -> list Partition.t) (d : t) : t :=
  setPartitionTable
    (PartitionTable.setChildren
       (PartitionNodes.modifyChildren r g (PartitionTable.children (partitionTable d)))
       (partitionTable d))
    d.

End Device.

(** ** Operations and jobs *)

Module Operation.

Inductive OperationStatus : Type :=
| StatusNone
| StatusPending
| StatusRunning
| StatusSuccess
| StatusWarning
| StatusError.

Definition status_eqb (a b : OperationStatus) : bool :=
  match a, b with
  | StatusNone, StatusNone
  | StatusPending, StatusPending
  | StatusRunning, StatusRunning
  | StatusSuccess, StatusSuccess
  | StatusWarning, StatusWarning
  | StatusError, StatusError => true
  | _, _ => false
  end.

(** The jobs a [DeleteOperation] is made of, each with the device node and
    the partition it was constructed for; [randomShred] is the third
    argument of [ShredFileSystemJob]. *)
Inductive Job : Type :=
| DeleteFileSystemJob (device : string) (partition : Partition.t)
| ShredFileSystemJob (device : string) (partition : Partition.t) (randomShred : bool)
| DeletePartitionJob (device : string) (partition : Partition.t).

(** Modelled from the spec: [Operation::removePreviewPartition]
    (ops/operation.cpp is not among the sources) takes the partition out of
    its parent and has the free space of the table recomputed. *)
Definition removePreviewPartition (d : Device.t) (p : Partition.t) : Device.t :=
  let d' := Device.modifyChildren (Partition.parent p) (PartitionNodes.remove p) d in
  Device.setPartitionTable (PartitionNodes.updateUnallocated (Device.partitionTable d')) d'.

(** Modelled from the spec: [Operation::insertPreviewPartition] takes the
    free space out of the table, puts the partition back under its parent
    and has the free space recomputed. *)
Definition insertPreviewPartition (d : Device.t) (p : Partition.t) : Device.t :=
  let pt := Device.partitionTable d in
  let d1 := Device.setPartitionTable
              (PartitionTable.setChildren
                 (PartitionNodes.removeUnallocated (PartitionTable.children pt)) pt) d in
  let d2 := Device.modifyChildren (Partition.parent p) (PartitionNodes.insert p) d1 in
  Device.setPartitionTable (PartitionNodes.updateUnallocated (Device.partitionTable d2)) d2.

End Operation.

(** ** ops/deleteoperation.cpp *)

Module DeleteOperation.

Import Operation.

Inductive ShredAction : Type :=
| NoShred
| ZeroShred
| RandomShred.

(** The device is held by reference: the operation keeps its node, and the
    functions that work on the device take its current state. *)
Record t : Type := mk {
  m_TargetDevice : string;
  m_DeletedPartition : Partition.t;
  m_ShredAction : ShredAction;
  m_DeletePartitionJob : Job;
  m_DeleteFileSystemJob : Job;
  jobs : list Job;
  status : OperationStatus
}.

(** Modelled from the spec: [Operation::addJob] (ops/operation.cpp) adds a
    job at the end of the operation's ordered list of jobs. *)
Definition addJob (j : Job) (op : t) : t :=
  mk (m_TargetDevice op) (m_DeletedPartition op) (m_ShredAction op)
     (m_DeletePartitionJob op) (m_DeleteFileSystemJob op) (jobs op ++ [j]) (status op).

Definition setStatus (s : OperationStatus) (op : t) : t :=
  mk (m_TargetDevice op) (m_DeletedPartition op) (m_ShredAction op)
     (m_DeletePartitionJob op) (m_DeleteFileSystemJob op) (jobs op) s.

(** [DeleteOperation::DeleteOperation].  The base class starts an operation
    without jobs and in the status None. *)
Definition new (d : Device.t) (p : Partition.t) (shred : ShredAction) : t :=
  let deletePartitionJob := DeletePartitionJob (Device.deviceNode d) p in
  let deleteFileSystemJob :=
    match shred with
    | NoShred => DeleteFileSystemJob (Device.deviceNode d) p
    | ZeroShred => ShredFileSystemJob (Device.deviceNode d) p false
    | RandomShred => ShredFileSystemJob (Device.deviceNode d) p true
    end in
  addJob deletePartitionJob
    (addJob deleteFileSystemJob
       (mk (Device.deviceNode d) p shred deletePartitionJob deleteFileSystemJob
           [] StatusNone)).

(** [DeleteOperation::~DeleteOperation]: is [m_DeletedPartition] deleted? *)
Definition destructor_deletes (op : t) : bool :=
  negb (status_eqb (status op) StatusPending)
  && negb (status_eqb (status op) StatusNone).

(** [DeleteOperation::checkAdjustLogicalNumbers].  The [dynamic_cast] of
    [p.parent()] to [Partition*] is null for the partition table. *)
Definition checkAdjustLogicalNumbers (d : Device.t) (p : Partition.t) (undo : bool)
  : Device.t :=
  match PartitionNodes.lookup (Partition.parent p)
          (PartitionTable.children (Device.partitionTable d)) with
  | Some parentPartition =>
      if PartitionRole.has (Partition.roles parentPartition) PartitionRole.Extended
      then Device.modifyChildren (Partition.parent p)
             (PartitionNodes.adjustLogicalNumbers
                (if undo then -1 else Partition.number p)
                (if undo then Partition.number p else -1))
             d
      else d
  | Datatypes.None => d
  end.

(** [DeleteOperation::preview] *)
Definition preview (op : t) (d : Device.t) : Device.t :=
  let d1 := removePreviewPartition d (m_DeletedPartition op) in
  checkAdjustLogicalNumbers d1 (m_DeletedPartition op) false.

(** [DeleteOperation::undo] *)
Definition undo (op : t) (d : Device.t) : Device.t :=
  let d1 := checkAdjustLogicalNumbers d (m_DeletedPartition op) true in
  insertPreviewPartition d1 (m_DeletedPartition op).

(** [DeleteOperation::canDelete]; [None] is the null pointer.  [&&] looks at
    [children()[0]] only when there is exactly one child. *)
Definition canDelete (p : option Partition.t) : bool :=
  match p with
  | Datatypes.None => false
  | Some p =>
      if Partition.isMounted p then false
      else if PartitionRole.has (Partition.roles p) PartitionRole.Unallocated then false
      else if PartitionRole.has (Partition.roles p) PartitionRole.Extended then
        (List.length (Partition.children p) =? 1)%nat
        && match Partition.children p with
           | child :: _ =>
               PartitionRole.has (Partition.roles child) PartitionRole.Unallocated
           | [] => false
           end
      else if PartitionRole.has (Partition.roles p) PartitionRole.Luks then
        match FileSystem.asLuks (Partition.fileSystem p) with
        | Datatypes.None => false
        | Some luksFs =>
            if FileSystem.isCryptOpen luksFs || FileSystem.isMounted luksFs
            then false
            else true
        end
      else true
  end.

(** Modelled from the spec: the life of an operation (ops/operation.cpp and
    the operation stack are not among the sources).  An operation is
    constructed in the status None; pushing it previews it and makes it
    Pending; a Pending operation can be undone, which hands its partition
    back to the tree, or run; a Running operation finishes in Success,
    Warning or Error.  [undone] remembers whether [undo] was called. *)
Record Staged : Type := mkStaged {
  operation : t;
  previewed : bool;
  undone : bool
}.

Inductive step : Staged -> Staged -> Prop :=
| step_push op :
    status op = StatusNone ->
    step (mkStaged op false false) (mkStaged (setStatus StatusPending op) true false)
| step_undo op :
    status op = StatusPending ->
    step (mkStaged op true false) (mkStaged op true true)
| step_run op :
    status op = StatusPending ->
    step (mkStaged op true false) (mkStaged (setStatus StatusRunning op) true false)
| step_finish op s :
    status op = StatusRunning ->
    s = StatusSuccess \/ s = StatusWarning \/ s = StatusError ->
    step (mkStaged op true false) (mkStaged (setStatus s op) true false).

Inductive reachable (op : t) : Staged -> Prop :=
| reachable_new : reachable op (mkStaged op false false)
| reachable_step s s' : reachable op s -> step s s' -> reachable op s'.

End DeleteOperation.

(** ** plugins/libparted/libpartedbackend.cpp *)

Module LibPartedBackend.

(** libparted's [PedPartitionType] (parted/disk.h). *)
Definition PED_PARTITION_NORMAL : Z := 0.
Definition PED_PARTITION_LOGICAL : Z := 1.
Definition PED_PARTITION_EXTENDED : Z := 2.
Definition PED_PARTITION_FREESPACE : Z := 4.
Definition PED_PARTITION_METADATA : Z := 8.
Definition PED_PARTITION_PROTECTED : Z := 16.

(** A raw record, as [ped_disk_next_partition] hands it out, with what
    [ped_partition_get_path] (a null pointer is [None]) and
    [ped_partition_is_busy] answer for it. *)
Record PedPartition : Type := mkPedPartition {
  num : Z;
  type : Z;
  geom_start : Z;
  geom_end : Z;
  path : option string;
  busy : bool
}.

(** An entry of the [KMountPoint::List]. *)
Record KMountPoint : Type := mkKMountPoint {
  realDeviceName : string;
  mountPoint : string
}.

(** [KMountPoint::List::findByDevice]; [None] is the null pointer. *)
Definition findByDevice (mountPoints : list KMountPoint) (device : string)
  : option KMountPoint :=
  find (fun m => String.eqb (realDeviceName m) device) mountPoints.

(** [QString::fromUtf8] of a possibly null C string. *)
Definition fromUtf8 (s : option string) : string :=
  match s with
  | Some s => s
  | Datatypes.None => EmptyString
  end.

Definition isEmpty (s : string) : bool := String.eqb s EmptyString.

Section Scan.

(** [FileSystem::detectFileSystem] on a device node. *)
Variable FileSystem_detectFileSystem : string -> FileSystem.Type_.
(** [FS::luks::mapperName]: the mapper device of an open container, the
    empty string for a closed one. *)
Variable luks_mapperName : string -> string.
(** [isMounted] of util/helpers.h. *)
Variable isMounted : string -> bool.
(** The mount points the scan collects at its start: the current ones
    followed by the possible ones. *)
Variable mountPoints : list KMountPoint.
(** The number the [Partition] constructor takes from its path
    (core/partition.cpp is not among the sources). *)
Variable numberOfPath : string -> Z.
(** [PartitionNode::findPartitionBySector]; [None] is the null pointer. *)
Variable findPartitionBySector :
  PartitionTable.t -> Z -> PartitionRole.Roles -> option PartitionNode.

(** [LibPartedBackend::detectFileSystem] *)
Definition detectFileSystem (pedPartition : PedPartition) : FileSystem.Type_ :=
  match path pedPartition with
  | Some pedPath => FileSystem_detectFileSystem pedPath
  | Datatypes.None => FileSystem.Unknown
  end.

(** The [switch] on [pedPartition->type]: role and file system type, or
    [None] for the [default: continue]. *)
Definition classify (pedPartition : PedPartition) (detected : FileSystem.Type_)
  : option (PartitionRole.Roles * FileSystem.Type_) :=
  if type pedPartition =? PED_PARTITION_NORMAL
  then Some ([PartitionRole.Primary], detected)
  else if type pedPartition =? PED_PARTITION_EXTENDED
  then Some ([PartitionRole.Extended], FileSystem.Extended)
  else if type pedPartition =? PED_PARTITION_LOGICAL
  then Some ([PartitionRole.Logical], detected)
  else Datatypes.None.

(** The parent of a partition that starts at [start]: the extended
    partition it is in, or the partition table. *)
Definition resolveParent (pt : PartitionTable.t) (start : Z) : PartitionNode :=
  match findPartitionBySector pt start [PartitionRole.Extended] with
  | Some parent => parent
  | Datatypes.None => TableNode
  end.

Definition mountPointOf (device : string) : string :=
  match findByDevice mountPoints device with
  | Some m => mountPoint m
  | Datatypes.None => EmptyString
  end.

(** Mount point and mounted state of a new partition, and its file system
    after the calls made on it. *)
Definition resolveMount (fs : FileSystem.t) (node : string) (pedBusy : bool)
  : FileSystem.t * string * bool :=
  if FileSystem.Type_eqb (FileSystem.type fs) FileSystem.Luks then
    let mapperNode := luks_mapperName node in
    let isCryptOpen := negb (isEmpty mapperNode) in
    let luksFs := FileSystem.setCryptOpen isCryptOpen fs in
    if isCryptOpen then
      let luksFs := FileSystem.loadInnerFilesystem mapperNode luksFs in
      let mountPoint := mountPointOf mapperNode in
      let mounted := isMounted mapperNode in
      (FileSystem.setMounted mounted luksFs, mountPoint, mounted)
    else
      (FileSystem.setMounted false luksFs, EmptyString, false)
  else
    (fs, mountPointOf node, pedBusy).

(** The body of the loop up to [new Partition]: the partition made for a
    record, [None] where the body leaves with [continue].  Flags, used
    sectors, label and UUID are not modelled. *)
Definition newPartition (pt : PartitionTable.t) (pedPartition : PedPartition)
  : option Partition.t :=
  if num pedPartition <? 1 then Datatypes.None
  else
    match classify pedPartition (detectFileSystem pedPartition) with
    | Datatypes.None => Datatypes.None
    | Some (r, type) =>
        let parent := resolveParent pt (geom_start pedPartition) in
        let node := fromUtf8 (path pedPartition) in
        let fs := FileSystemFactory_create type (geom_start pedPartition)
                    (geom_end pedPartition) in
        let '(fs, mountPoint, mounted) := resolveMount fs node (busy pedPartition) in
        Some (Partition.mk (nodeRef parent) r fs (geom_start pedPartition)
                (geom_end pedPartition) node (numberOfPath node) mountPoint mounted [])
    end.

(** The device being filled and the list [partitions] of the scan. *)
Record Scan : Type := mkScan {
  device : Device.t;
  partitions : list Partition.t
}.

(** One turn of the loop: [parent->append(part)],
    [partitions.append(part)]. *)
Definition scanPartition (st : Scan) (pedPartition : PedPartition) : Scan :=
  match newPartition (Device.partitionTable (device st)) pedPartition with
  | Datatypes.None => st
  | Some part =>
      mkScan
        (Device.modifyChildren (Partition.parent part) (PartitionNodes.append part)
           (device st))
        (partitions st ++ [part])
  end.

(** [LibPartedBackend::scanDevicePartitions] over the records of the disk,
    in the order [ped_disk_next_partition] yields them; the free space is
    computed after the loop. *)
Definition scanLoop (d : Device.t) (records : list PedPartition) : Scan :=
  fold_left scanPartition records (mkScan d []).

Definition scanDevicePartitions (d : Device.t) (records : list PedPartition) : Scan :=
  let st := scanLoop d records in
  mkScan
    (Device.setPartitionTable
       (PartitionNodes.updateUnallocated (Device.partitionTable (device st)))
       (device st))
    (partitions st).

End Scan.

(** The records the loop does not skip. *)
Definition representable (pedPartition : PedPartition) : bool :=
  (1 <=? num pedPartition)
  && ((type pedPartition =? PED_PARTITION_NORMAL)
      || (type pedPartition =? PED_PARTITION_EXTENDED)
      || (type pedPartition =? PED_PARTITION_LOGICAL)).

End LibPartedBackend.

(** ** Sample data

    A disk [/dev/sda] with the usable sectors 2048..1000000: a primary
    partition holding a closed encrypted container, and an extended
    partition 100000..500000 with the logical partitions 5 and 6. *)

Module Samples.

Definition plain (r : NodeRef) (roles : PartitionRole.Roles) (first last : Z)
  (path : string) (number : Z) (children : list Partition.t) : Partition.t :=
  Partition.mk r roles (FileSystemFactory_create FileSystem.Ext2 first last)
    first last path number EmptyString false children.

Definition sda1 : Partition.t :=
  Partition.mk [] [PartitionRole.Primary; PartitionRole.Luks]
    (FileSystemFactory_create FileSystem.Luks 2048 99999)
    2048 99999 "/dev/sda1" 1 EmptyString false [].

Definition sda5 : Partition.t :=
  plain [100000] [PartitionRole.Logical] 100000 200000 "/dev/sda5" 5 [].

Definition sda6 : Partition.t :=
  plain [100000] [PartitionRole.Logical] 200001 300000 "/dev/sda6" 6 [].

Definition sda2 : Partition.t :=
  Partition.mk [] [PartitionRole.Extended]
    (FileSystemFactory_create FileSystem.Extended 100000 500000)
    100000 500000 "/dev/sda2" 2 EmptyString false
    [sda5; sda6; PartitionNodes.unallocated [100000] 300001 500000].

Definition sda : Device.t :=
  Device.mk "/dev/sda"
    (PartitionTable.mk 2048 1000000
       [sda1; sda2; PartitionNodes.unallocated [] 500001 1000000]).

(** What the collaborators of the scan answer on that disk once the
    container on [/dev/sda1] is open and mounted on [/home], and the records
    libparted yields for it. *)

Definition detect (node : string) : FileSystem.Type_ :=
  if String.eqb node "/dev/sda1" then FileSystem.Luks else FileSystem.Ext2.

Definition mapperName (node : string) : string :=
  if String.eqb node "/dev/sda1" then "/dev/mapper/luks-sda1" else EmptyString.

Definition mounted (node : string) : bool :=
  String.eqb node "/dev/mapper/luks-sda1".

Definition mountTable : list LibPartedBackend.KMountPoint :=
  [LibPartedBackend.mkKMountPoint "/dev/mapper/luks-sda1" "/home"].

Definition numberOfPath (node : string) : Z :=
  if String.eqb node "/dev/sda1" then 1
  else if String.eqb node "/dev/sda2" then 2
  else if String.eqb node "/dev/sda5" then 5
  else if String.eqb node "/dev/sda6" then 6
  else -1.

Definition ped_sda1 : LibPartedBackend.PedPartition :=
  LibPartedBackend.mkPedPartition 1 LibPartedBackend.PED_PARTITION_NORMAL
    2048 99999 (Some "/dev/sda1"%string) false.

Definition records : list LibPartedBackend.PedPartition :=
  [ LibPartedBackend.mkPedPartition (-1) LibPartedBackend.PED_PARTITION_METADATA
      0 2047 Datatypes.None false;
    ped_sda1;
    LibPartedBackend.mkPedPartition 2 LibPartedBackend.PED_PARTITION_EXTENDED
      100000 500000 (Some "/dev/sda2"%string) false;
    LibPartedBackend.mkPedPartition 5 LibPartedBackend.PED_PARTITION_LOGICAL
      100000 200000 (Some "/dev/sda5"%string) false;
    LibPartedBackend.mkPedPartition 6 LibPartedBackend.PED_PARTITION_LOGICAL
      200001 300000 (Some "/dev/sda6"%string) false;
    LibPartedBackend.mkPedPartition (-1) 5
      300001 500000 Datatypes.None false;
    LibPartedBackend.mkPedPartition (-1) LibPartedBackend.PED_PARTITION_FREESPACE
      500001 1000000 Datatypes.None false ].

Definition emptyDisk : Device.t :=
  Device.mk "/dev/sda" (PartitionTable.mk 2048 1000000 []).

End Samples.

(** ** fs/ext2.cpp, the remaining capabilities *)

Module Ext2Ops.

Section SupportTool.

Variable cmdSupportNone : Z.

(** [ext2::supportToolFound], the conjuncts in source order. *)
Definition supportToolFound (s : Ext2.Support) : bool :=
  negb (Ext2.m_GetUsed s =? cmdSupportNone)
  && negb (Ext2.m_GetLabel s =? cmdSupportNone)
  && negb (Ext2.m_SetLabel s =? cmdSupportNone)
  && negb (Ext2.m_Create s =? cmdSupportNone)
  && negb (Ext2.m_Check s =? cmdSupportNone)
  && negb (Ext2.m_UpdateUUID s =? cmdSupportNone)
  && negb (Ext2.m_Grow s =? cmdSupportNone)
  && negb (Ext2.m_Shrink s =? cmdSupportNone)
  && negb (Ext2.m_Copy s =? cmdSupportNone)
  && negb (Ext2.m_Move s =? cmdSupportNone)
  && negb (Ext2.m_Backup s =? cmdSupportNone)
  && negb (Ext2.m_GetUUID s =? cmdSupportNone).

End SupportTool.

(** A [qint64] holds its value modulo 2^64, read as a signed number. *)
Definition wrap64 (z : Z) : Z := (z + 2 ^ 63) mod 2 ^ 64 - 2 ^ 63.

Section ReadUsedCapacity.

(** Running a program: whether it ran, and what it printed. *)
Variable execute : string -> list string -> ExternalCommand.t.
Variable output : string -> list string -> string.
(** [re.match(text)] for the pattern [re]: [None] without a match, else
    [captured(1).toLongLong()]. *)
Variable captured : string -> string -> option Z.

Definition field (pattern text : string) : Z :=
  match captured pattern text with
  | Some v => v
  | Datatypes.None => -1
  end.

(** [ext2::readUsedCapacity] *)
Definition readUsedCapacity (deviceNode : string) : Z :=
  let args := ["-h"; deviceNode]%string in
  if ExternalCommand.run (execute "dumpe2fs" args) then
    let text := output "dumpe2fs" args in
    let blockCount := field "Block count:\s+(\d+)" text in
    let freeBlocks := field "Free blocks:\s+(\d+)" text in
    let blockSize := field "Block size:\s+(\d+)" text in
    if (-1 <? blockCount) && (-1 <? freeBlocks) && (-1 <? blockSize)
    then wrap64 (wrap64 (blockCount - freeBlocks) * blockSize)
    else -1
  else -1.

End ReadUsedCapacity.

End Ext2Ops.

(** ** plugins/libparted/libpartedbackend.cpp, the partition flags *)

Module LibPartedFlags.

(** libparted's [PedPartitionFlag], the enumerators the table names. *)
Inductive PedPartitionFlag : Type :=
| PED_PARTITION_BOOT
| PED_PARTITION_ROOT
| PED_PARTITION_SWAP
| PED_PARTITION_HIDDEN
| PED_PARTITION_RAID
| PED_PARTITION_LVM
| PED_PARTITION_LBA
| PED_PARTITION_HPSERVICE
| PED_PARTITION_PALO
| PED_PARTITION_PREP
| PED_PARTITION_MSFT_RESERVED
| PED_PARTITION_BIOS_GRUB
| PED_PARTITION_APPLE_TV_RECOVERY
| PED_PARTITION_DIAG
| PED_PARTITION_LEGACY_BOOT
| PED_PARTITION_MSFT_DATA
| PED_PARTITION_IRST
| PED_PARTITION_ESP.

(** [PartitionTable::Flag]; [FlagNone] is the flag without a bit. *)
Inductive Flag : Type :=
| FlagNone
| FlagBoot
| FlagRoot
| FlagSwap
| FlagHidden
| FlagRaid
| FlagLvm
| FlagLba
| FlagHpService
| FlagPalo
| FlagPrep
| FlagMsftReserved
| FlagBiosGrub
| FlagAppleTvRecovery
| FlagDiag
| FlagLegacyBoot
| FlagMsftData
| FlagIrst
| FlagEsp.

Definition Flag_eqb (a b : Flag) : bool :=
  match a, b with
  | FlagNone, FlagNone
  | FlagBoot, FlagBoot
  | FlagRoot, FlagRoot
  | FlagSwap, FlagSwap
  | FlagHidden, FlagHidden
  | FlagRaid, FlagRaid
  | FlagLvm, FlagLvm
  | FlagLba, FlagLba
  | FlagHpService, FlagHpService
  | FlagPalo, FlagPalo
  | FlagPrep, FlagPrep
  | FlagMsftReserved, FlagMsftReserved
  | FlagBiosGrub, FlagBiosGrub
  | FlagAppleTvRecovery, FlagAppleTvRecovery
  | FlagDiag, FlagDiag
  | FlagLegacyBoot, FlagLegacyBoot
  | FlagMsftData, FlagMsftData
  | FlagIrst, FlagIrst
  | FlagEsp, FlagEsp => true
  | _, _ => false
  end.

(** The static table [flagmap]. *)
Definition flagmap : list (PedPartitionFlag * Flag) :=
  [ (PED_PARTITION_BOOT, FlagBoot);
    (PED_PARTITION_ROOT, FlagRoot);
    (PED_PARTITION_SWAP, FlagSwap);
    (PED_PARTITION_HIDDEN, FlagHidden);
    (PED_PARTITION_RAID, FlagRaid);
    (PED_PARTITION_LVM, FlagLvm);
    (PED_PARTITION_LBA, FlagLba);
    (PED_PARTITION_HPSERVICE, FlagHpService);
    (PED_PARTITION_PALO, FlagPalo);
    (PED_PARTITION_PREP, FlagPrep);
    (PED_PARTITION_MSFT_RESERVED, FlagMsftReserved);
    (PED_PARTITION_BIOS_GRUB, FlagBiosGrub);
    (PED_PARTITION_APPLE_TV_RECOVERY, FlagAppleTvRecovery);
    (PED_PARTITION_DIAG, FlagDiag);
    (PED_PARTITION_LEGACY_BOOT, FlagLegacyBoot);
    (PED_PARTITION_MSFT_DATA, FlagMsftData);
    (PED_PARTITION_IRST, FlagIrst);
    (PED_PARTITION_ESP, FlagEsp) ].

(** [PartitionTable::Flags] is a set of flags, kept as the list of its
    members in the order they were raised; [flags |= flag] raises one. *)
Definition Flags : Type := list Flag.

Definition raise (flag : Flag) (flags : Flags) : Flags :=
  if existsb (Flag_eqb flag) flags then flags else flags ++ [flag].

Section PartitionFlags.

(** [ped_partition_is_flag_available] and [ped_partition_get_flag]. *)
Variable ped_partition_is_flag_available :
  LibPartedBackend.PedPartition -> PedPartitionFlag -> bool.
Variable ped_partition_get_flag :
  LibPartedBackend.PedPartition -> PedPartitionFlag -> bool.

(** [activeFlags] *)
Definition activeFlags (p : LibPartedBackend.PedPartition) : Flags :=
  if LibPartedBackend.num p <=? 0 then []
  else
    fold_left
      (fun flags entry =>
         if ped_partition_is_flag_available p (fst entry)
            && ped_partition_get_flag p (fst entry)
         then raise (snd entry) flags
         else flags)
      flagmap [].

(** [availableFlags] *)
Definition availableFlags (p : LibPartedBackend.PedPartition) : Flags :=
  if LibPartedBackend.num p <=? 0 then []
  else
    fold_left
      (fun flags entry =>
         if ped_partition_is_flag_available p (fst entry)
         then
           if negb (LibPartedBackend.type p =? LibPartedBackend.PED_PARTITION_EXTENDED)
              || negb (Flag_eqb (snd entry) FlagHidden)
           then raise (snd entry) flags
           else flags
         else flags)
      flagmap [].

End PartitionFlags.

(** [LibPartedBackend::getPedFlag]; [None] is the value
    [static_cast<PedPartitionFlag>(-1)] that is returned past the table. *)
Definition getPedFlag (flag : Flag) : option PedPartitionFlag :=
  option_map fst (find (fun entry => Flag_eqb (snd entry) flag) flagmap).

End LibPartedFlags.

(** ** plugins/libparted/libpartedbackend.cpp, devices *)

Module LibPartedDevices.

(** A [quint64] and a [quint32] hold their value modulo 2^64 and 2^32. *)
Definition wrapU64 (z : Z) : Z := z mod 2 ^ 64.
Definition wrapU32 (z : Z) : Z := z mod 2 ^ 32.

(** What the functions below read of a [PedDisk]: the BIOS geometry of its
    device, the name of its type, and the data area of the GPT data
    [disk_specific] points to.  [data_area] is the first member of the
    packed struct, so its address is null exactly when [disk_specific] is:
    that is [None]. *)
Record PedDisk : Type := mkPedDisk {
  bios_sectors : Z;
  bios_heads : Z;
  bios_cylinders : Z;
  type_name : string;
  data_area : option (Z * Z)
}.

Definition isGpt (pedDisk : PedDisk) : bool := String.eqb (type_name pedDisk) "gpt".

(** [firstUsableSector]; the argument is what [ped_disk_new] gave for the
    device, [None] when the device or its disk could not be had. *)
Definition firstUsableSector (pedDisk : option PedDisk) : Z :=
  match pedDisk with
  | Datatypes.None => 0
  | Some disk =>
      let rval := wrapU64 (bios_sectors disk) in
      if isGpt disk then
        match data_area disk with
        | Some (start, _) => wrapU64 start
        | Datatypes.None => wrapU64 (rval + 32)
        end
      else rval
  end.

(** [lastUsableSector] *)
Definition lastUsableSector (pedDisk : option PedDisk) : Z :=
  match pedDisk with
  | Datatypes.None => 0
  | Some disk =>
      let rval :=
        wrapU64
          (wrapU64 (wrapU64 (wrapU64 (bios_sectors disk) * wrapU64 (bios_heads disk))
                    * wrapU64 (bios_cylinders disk))
           - 1) in
      if isGpt disk then
        match data_area disk with
        | Some (_, last) => wrapU64 last
        | Datatypes.None => wrapU64 (rval - 32)
        end
      else rval
  end.

(** [KDiskFreeSpaceInfo]: is the information valid, and the bytes used. *)
Record KDiskFreeSpaceInfo : Type := mkKDiskFreeSpaceInfo {
  isValid : bool;
  used : Z
}.

Section ReadSectorsUsed.

(** Is the backend compiled with [LIBPARTED_FS_RESIZE_LIBRARY_SUPPORT]? *)
Variable LIBPARTED_FS_RESIZE_LIBRARY_SUPPORT : bool.
Variables cmdSupportCore cmdSupportFileSystem : Z.

(** [readSectorsUsed]: the value handed to [setSectorsUsed], [None] when
    the function leaves the file system as it is.  The arguments
    [usedCapacity] and [usedLibParted] are what [readUsedCapacity] of the
    file system and [readSectorsUsedLibParted] answer for the partition.
    The sector size of the device is a signed integer, so the division of
    the signed [readUsedCapacity] truncates towards zero; the bytes used of
    the mount point are not negative. *)
Definition readSectorsUsed (isMounted : bool) (freeSpaceInfo : KDiskFreeSpaceInfo)
  (mountPoint : string) (supportGetUsed usedCapacity usedLibParted : Z)
  (logicalSectorSize : Z) : option Z :=
  if isMounted && isValid freeSpaceInfo && negb (LibPartedBackend.isEmpty mountPoint)
  then Some (used freeSpaceInfo / logicalSectorSize)
  else if supportGetUsed =? cmdSupportFileSystem
  then Some (Z.quot usedCapacity logicalSectorSize)
  else if LIBPARTED_FS_RESIZE_LIBRARY_SUPPORT && (supportGetUsed =? cmdSupportCore)
  then Some usedLibParted
  else Datatypes.None.

End ReadSectorsUsed.

(** What [scanDevices] reads of a [PedDevice]. *)
Record PedDevice : Type := mkPedDevice {
  dev_type : Z;
  read_only : bool;
  dev_path : string
}.

Section ScanDevices.

(** The enumerators of libparted's [PedDeviceType] the loop tests. *)
Variables PED_DEVICE_DM PED_DEVICE_LOOP : Z.
(** [scanDevice] on a path: the device, or [None] for the null pointer. *)
Variable ScannedDevice : Type.
Variable scanDevice : string -> option ScannedDevice.

(** First loop of [scanDevices] over the devices [ped_device_get_next]
    yields: the vector [path] and the counter [totalDevices]. *)
Fixpoint collect (excludeReadOnly : bool) (devices : list PedDevice)
  (path : list string) (totalDevices : Z) : list string * Z :=
  match devices with
  | [] => (path, totalDevices)
  | pedDevice :: rest =>
      if dev_type pedDevice =? PED_DEVICE_DM
      then collect excludeReadOnly rest path totalDevices
      else if excludeReadOnly
              && ((dev_type pedDevice =? PED_DEVICE_LOOP) || read_only pedDevice)
      then collect excludeReadOnly rest path totalDevices
      else collect excludeReadOnly rest (path ++ [dev_path pedDevice])
             (wrapU32 (totalDevices + 1))
  end.

(** What [scanDevices] leaves behind: the calls of [emitScanProgress],
    oldest first, and the list it returns. *)
Record Scanned : Type := mkScanned {
  progress : list (string * Z);
  result : list ScannedDevice
}.

(** Second loop, one turn for the index [i]. *)
Definition scanOne (path : list string) (totalDevices : Z) (acc : Scanned) (i : nat)
  : Scanned :=
  let node := nth i path EmptyString in
  mkScanned
    (progress acc ++ [(node, wrapU32 (Z.of_nat i * 100) / totalDevices)])
    (match scanDevice node with
     | Some d => result acc ++ [d]
     | Datatypes.None => result acc
     end).

(** [LibPartedBackend::scanDevices] *)
Definition scanDevices (excludeReadOnly : bool) (devices : list PedDevice) : Scanned :=
  let '(path, totalDevices) := collect excludeReadOnly devices [] 0 in
  fold_left (scanOne path totalDevices) (seq 0 (Z.to_nat totalDevices))
    (mkScanned [] []).

(** The devices the first loop keeps. *)
Definition kept (excludeReadOnly : bool) (pedDevice : PedDevice) : bool :=
  negb (dev_type pedDevice =? PED_DEVICE_DM)
  && negb (excludeReadOnly
           && ((dev_type pedDevice =? PED_DEVICE_LOOP) || read_only pedDevice)).

End ScanDevices.

Arguments mkScanned {ScannedDevice}.
Arguments progress {ScannedDevice}.
Arguments result {ScannedDevice}.
Arguments scanOne {ScannedDevice}.
Arguments scanDevices PED_DEVICE_DM PED_DEVICE_LOOP {ScannedDevice}.

End LibPartedDevices.

(* ================================================================= *)
(** * Part II: properties *)
(* ================================================================= *)

(** ** ext2 *)

Section Ext2Facts.

Variables cmdSupportNone cmdSupportCore cmdSupportFileSystem : Z.
Variable findExternal : string -> option (list string) -> bool.

Let flags := Ext2.init cmdSupportNone cmdSupportCore cmdSupportFileSystem findExternal.
Let supported := Ext2.supported cmdSupportNone.

(** C10. After [ext2::init], with [cmdSupportNone] the zero enumerator:
    Grow is supported only if Check is; Shrink only if both Grow and GetUsed
    are; Copy and Move only if Check is. *)
Theorem ext2_init_dependencies :
  cmdSupportNone = 0 ->
  (supported (Ext2.m_Grow flags) -> supported (Ext2.m_Check flags))
  /\ (supported (Ext2.m_Shrink flags) ->
      supported (Ext2.m_Grow flags) /\ supported (Ext2.m_GetUsed flags))
  /\ (supported (Ext2.m_Copy flags) -> supported (Ext2.m_Check flags))
  /\ (supported (Ext2.m_Move flags) -> supported (Ext2.m_Check flags)).
Proof.
  intros Hnone.
  subst flags supported. unfold Ext2.supported, Ext2.init.
  cbn [Ext2.m_Grow Ext2.m_Check Ext2.m_Shrink Ext2.m_GetUsed Ext2.m_Copy Ext2.m_Move].
  set (check := if findExternal "e2fsck" (Some ["-V"%string]) then _ else _).
  set (getUsed := Ext2.tool _ _ _ "dumpe2fs").
  set (grow := if negb (check =? cmdSupportNone) && _ then _ else _).
  assert (Hcheck : forall (b : bool) (v : Z),
             (if negb (check =? cmdSupportNone) && b then v else cmdSupportNone)
             <> cmdSupportNone -> check <> cmdSupportNone).
  { intros b v. destruct (check =? cmdSupportNone) eqn:E; cbn [negb andb].
    - congruence.
    - intros _. now apply Z.eqb_neq. }
  assert (Hshrink :
            (if negb (Z.b2z (negb (grow =? cmdSupportNone) && Ext2.as_bool getUsed)
                      =? cmdSupportNone)
             then cmdSupportFileSystem else cmdSupportNone) <> cmdSupportNone ->
            grow <> cmdSupportNone /\ getUsed <> cmdSupportNone).
  { unfold Ext2.as_bool. rewrite Hnone.
    destruct (grow =? 0) eqn:Eg, (getUsed =? 0) eqn:Eu; cbn; try congruence.
    intros _. split; now apply Z.eqb_neq. }
  split; [ exact (Hcheck _ _) | ].
  split; [ exact Hshrink | ].
  split; intros H; apply (Hcheck true cmdSupportCore); now rewrite andb_true_r.
Qed.

End Ext2Facts.

(** The invariant at the enumerator values 0, 1, 2, on a machine where every
    helper program but [dumpe2fs] is installed. *)
Lemma ext2_init_dependencies_witness :
  let findExternal :=
    fun (name : string) (_ : option (list string)) => negb (String.eqb name "dumpe2fs") in
  let flags := Ext2.init 0 1 2 findExternal in
  (Ext2.m_Grow flags = 2 /\ Ext2.m_Shrink flags = 0 /\ Ext2.m_GetUsed flags = 0)
  /\ (Ext2.supported 0 (Ext2.m_Shrink flags) ->
      Ext2.supported 0 (Ext2.m_Grow flags) /\ Ext2.supported 0 (Ext2.m_GetUsed flags)).
Proof.
  intros findExternal flags. split.
  - repeat split; reflexivity.
  - exact (proj1 (proj2 (ext2_init_dependencies 0 1 2 findExternal eq_refl))).
Defined.

Section Ext2CheckFacts.

Variable execute : string -> list string -> ExternalCommand.t.

(** C8. [ext2::check] returns true if and only if the [e2fsck] command runs
    and its exit code is 0, 1, 2 or 256. *)
Theorem ext2_check_accepted_exit_codes (deviceNode : string) :
  let cmd := execute "e2fsck" ["-f"; "-y"; "-v"; deviceNode]%string in
  Ext2.check execute deviceNode = true <->
  ExternalCommand.run cmd = true
  /\ (ExternalCommand.exitCode cmd = 0 \/ ExternalCommand.exitCode cmd = 1
      \/ ExternalCommand.exitCode cmd = 2 \/ ExternalCommand.exitCode cmd = 256).
Proof.
  intros cmd. unfold Ext2.check. fold cmd.
  rewrite andb_true_iff, !orb_true_iff, !Z.eqb_eq. tauto.
Qed.

End Ext2CheckFacts.


(** ** MovePhysicalVolumeJob *)

Section MovePhysicalVolumeJobFacts.

Import MovePhysicalVolumeJob.

Variable Lvm : Type.
Variable getPVs : Lvm -> string -> list string.
Variable movePV : Lvm -> string -> list string -> bool * Lvm.

Lemma contains_In (l : list string) (s : string) :
  contains l s = true <-> In s l.
Proof.
  unfold contains. rewrite existsb_exists. split.
  - intros [x [Hx E]]. apply String.eqb_eq in E. now subst.
  - intros H. exists s. split; [assumption | apply String.eqb_refl].
Qed.

Lemma In_removeAll (s d : string) (l : list string) :
  In d (removeAll s l) <-> In d l /\ d <> s.
Proof.
  unfold removeAll. rewrite filter_In, negb_true_iff, String.eqb_neq. tauto.
Qed.

Lemma In_destinationsFor (partList pvs : list string) (d : string) :
  In d (destinationsFor pvs partList) <-> In d pvs /\ ~ In d partList.
Proof.
  unfold destinationsFor. revert pvs.
  induction partList as [|p partList IH]; intros pvs; cbn [fold_left].
  - cbn. tauto.
  - rewrite IH. destruct (contains pvs p) eqn:E.
    + rewrite In_removeAll. cbn. intuition congruence.
    + assert (Hp : ~ In p pvs).
      { rewrite <- contains_In. congruence. }
      cbn. intuition congruence.
Qed.

Lemma moveLoop_offers (destinations partList : list string) :
  forall acc : Outcome Lvm,
    Forall (fun c => offered c = destinations) (calls acc) ->
    Forall (fun c => offered c = destinations)
           (calls (moveLoop movePV destinations partList acc)).
Proof.
  induction partList as [|p partList IH]; intros acc Hacc; cbn [moveLoop].
  - assumption.
  - destruct (movePV (lvm acc) p destinations) as [r st'].
    assert (Hacc' : Forall (fun c => offered c = destinations)
                           (calls acc ++ [mkCall p destinations])).
    { apply Forall_app. split; [assumption | now constructor]. }
    destruct r; [apply IH | ]; exact Hacc'.
Qed.

Lemma moveLoop_first_failure (destinations : list string) (failed : string)
  (rest : list string) (st st1 st2 : Lvm) (moved : list string) :
  allMoved movePV destinations st moved st1 ->
  movePV st1 failed destinations = (false, st2) ->
  forall acc : Outcome Lvm,
    lvm acc = st ->
    moveLoop movePV destinations (moved ++ failed :: rest) acc
    = {| rval := false; lvm := st2;
         calls := calls acc
                  ++ map (fun p => mkCall p destinations) (moved ++ [failed]) |}.
Proof.
  intros Hmoved Hfail.
  induction Hmoved as [st | st st' st'' p l Hp Hl IH]; intros acc Hacc;
    cbn [app moveLoop map]; rewrite Hacc.
  - now rewrite Hfail.
  - rewrite Hp. rewrite (IH Hfail) by reflexivity.
    cbn [calls]. now rewrite <- app_assoc.
Qed.

Lemma moveLoop_all_moved (destinations : list string) (st st1 : Lvm)
  (moved : list string) :
  allMoved movePV destinations st moved st1 ->
  forall acc : Outcome Lvm,
    lvm acc = st ->
    moveLoop movePV destinations moved acc
    = {| rval := match moved with [] => rval acc | _ :: _ => true end;
         lvm := st1;
         calls := calls acc ++ map (fun p => mkCall p destinations) moved |}.
Proof.
  intros Hmoved.
  induction Hmoved as [st | st st' st'' p l Hp Hl IH]; intros acc Hacc;
    cbn [moveLoop map].
  - rewrite app_nil_r. destruct acc; cbn in *. now subst.
  - rewrite Hacc, Hp. rewrite IH by reflexivity.
    cbn [calls rval]. rewrite <- app_assoc. now destruct l.
Qed.

(** C9. [MovePhysicalVolumeJob::run] offers as destinations the volume
    group's physical volumes without the members of the move list, in every
    [movePV] call it makes; when a move fails after the moves before it
    succeeded, that move is the last one made and the job returns its
    result, false. *)
Theorem run_excludes_moved_and_stops (st : Lvm) (deviceName : string)
  (partList : list string) :
  let destinations := destinationsFor (getPVs st deviceName) partList in
  let out := run getPVs movePV st deviceName partList in
  (forall d, In d destinations <-> In d (getPVs st deviceName) /\ ~ In d partList)
  /\ (forall c, In c (calls out) ->
        offered c = destinations /\ forall p, In p partList -> ~ In p (offered c))
  /\ (forall moved failed rest st1 st2,
        partList = moved ++ failed :: rest ->
        allMoved movePV destinations st moved st1 ->
        movePV st1 failed destinations = (false, st2) ->
        rval out = false /\ lvm out = st2
        /\ map partPath (calls out) = moved ++ [failed]).
Proof.
  intros destinations out. split; [| split].
  - intros d. apply In_destinationsFor.
  - intros c Hc.
    assert (Hall : Forall (fun c => offered c = destinations) (calls out)).
    { apply moveLoop_offers. constructor. }
    rewrite Forall_forall in Hall. specialize (Hall c Hc).
    split; [assumption |].
    intros p Hp. rewrite Hall. subst destinations.
    rewrite In_destinationsFor. tauto.
  - intros moved failed rest st1 st2 Hsplit Hmoved Hfail.
    subst out. unfold run. fold destinations. clearbody destinations.
    subst partList.
    rewrite (moveLoop_first_failure _ _ rest _ _ _ _ Hmoved Hfail) by reflexivity.
    cbn [rval lvm calls app]. split; [reflexivity | split; [reflexivity |]].
    rewrite map_map. cbn [partPath]. apply map_id.
Qed.

End MovePhysicalVolumeJobFacts.

(** A volume group of three physical volumes, two of them to be evacuated;
    the state counts the moves made and the second move fails. *)
Lemma run_excludes_moved_and_stops_witness :
  let getPVs := fun (_ : nat) (_ : string) => ["/dev/sda1"; "/dev/sdb1"; "/dev/sdc1"]%string in
  let movePV := fun (n : nat) (_ : string) (_ : list string) => (Nat.eqb n 0, S n) in
  let partList := ["/dev/sda1"; "/dev/sdb1"; "/dev/sdc1"]%string in
  let out := MovePhysicalVolumeJob.run getPVs movePV 0%nat "vg0" partList in
  MovePhysicalVolumeJob.rval out = false
  /\ MovePhysicalVolumeJob.lvm out = 2%nat
  /\ map (@MovePhysicalVolumeJob.partPath) (MovePhysicalVolumeJob.calls out)
     = ["/dev/sda1"; "/dev/sdb1"]%string.
Proof.
  intros getPVs movePV partList out.
  refine (proj2 (proj2 (run_excludes_moved_and_stops nat getPVs movePV 0%nat "vg0" partList))
            ["/dev/sda1"%string] "/dev/sdb1"%string ["/dev/sdc1"%string] 1%nat 2%nat
            eq_refl _ eq_refl).
  apply MovePhysicalVolumeJob.allMoved_cons with (st' := 1%nat).
  - reflexivity.
  - apply MovePhysicalVolumeJob.allMoved_nil.
Defined.

(** ** DeleteOperation *)

Section DeleteOperationFacts.

Import Operation DeleteOperation.

(** C3. A [DeleteOperation] has exactly two jobs, whatever the shred action:
    first the job that deletes or shreds the file system, then the job that
    removes the partition. *)
Theorem delete_operation_jobs (d : Device.t) (p : Partition.t) (shred : ShredAction) :
  let op := new d p shred in
  jobs op = [m_DeleteFileSystemJob op; m_DeletePartitionJob op]
  /\ m_DeletePartitionJob op = DeletePartitionJob (Device.deviceNode d) p
  /\ m_DeleteFileSystemJob op
     = match shred with
       | NoShred => DeleteFileSystemJob (Device.deviceNode d) p
       | ZeroShred => ShredFileSystemJob (Device.deviceNode d) p false
       | RandomShred => ShredFileSystemJob (Device.deviceNode d) p true
       end.
Proof.
  destruct shred; repeat split.
Qed.

(** C1, as the spec states it, fails: [sda1] holds a locked container, is
    not mounted, and can be deleted. *)
Lemma canDelete_locked_container :
  ~ (canDelete (Some Samples.sda1) = false <->
     (Partition.isMounted Samples.sda1 = true
      \/ PartitionRole.has (Partition.roles Samples.sda1) PartitionRole.Unallocated = true
      \/ (PartitionRole.has (Partition.roles Samples.sda1) PartitionRole.Extended = true
          /\ exists c, In c (Partition.children Samples.sda1)
                       /\ PartitionRole.has (Partition.roles c) PartitionRole.Unallocated = false)
      \/ (PartitionRole.has (Partition.roles Samples.sda1) PartitionRole.Luks = true
          /\ exists l, FileSystem.asLuks (Partition.fileSystem Samples.sda1) = Some l
                       /\ FileSystem.isCryptOpen l = false))).
Proof.
  intros [_ H].
  assert (E : canDelete (Some Samples.sda1) = true) by reflexivity.
  rewrite H in E; [discriminate |].
  right; right; right. split; [reflexivity |].
  eexists. split; reflexivity.
Qed.

(** C1, amended. [canDelete] returns false exactly for the null pointer, a
    mounted partition, an Unallocated node, an Extended partition whose
    children are not a single Unallocated node, and a partition of the role
    Luks (not Extended) whose file system is not an [FS::luks] or is an open
    or mounted container. *)
Theorem canDelete_false_iff (p : option Partition.t) :
  canDelete p = false <->
  (p = Datatypes.None
   \/ exists q, p = Some q
      /\ (Partition.isMounted q = true
          \/ PartitionRole.has (Partition.roles q) PartitionRole.Unallocated = true
          \/ (PartitionRole.has (Partition.roles q) PartitionRole.Extended = true
              /\ ~ exists c, Partition.children q = [c]
                             /\ PartitionRole.has (Partition.roles c)
                                  PartitionRole.Unallocated = true)
          \/ (PartitionRole.has (Partition.roles q) PartitionRole.Extended = false
              /\ PartitionRole.has (Partition.roles q) PartitionRole.Luks = true
              /\ (FileSystem.asLuks (Partition.fileSystem q) = Datatypes.None
                  \/ exists l, FileSystem.asLuks (Partition.fileSystem q) = Some l
                               /\ (FileSystem.isCryptOpen l = true
                                   \/ FileSystem.isMounted l = true))))).
Proof.
  destruct p as [q|]; cbn [canDelete]; [| now intuition].
  destruct (Partition.isMounted q) eqn:Em.
  { split; [| reflexivity]. intros _. right. exists q. tauto. }
  destruct (PartitionRole.has (Partition.roles q) PartitionRole.Unallocated) eqn:Eu.
  { split; [| reflexivity]. intros _. right. exists q. tauto. }
  destruct (PartitionRole.has (Partition.roles q) PartitionRole.Extended) eqn:Ee.
  { destruct (Partition.children q) as [|c [|c' cs]] eqn:Ec;
      cbn [List.length Nat.eqb andb].
    - split; [| reflexivity]. intros _. right. exists q. split; [reflexivity |].
      right; right; left. split; [assumption |]. intros [c [H _]]. congruence.
    - destruct (PartitionRole.has (Partition.roles c) PartitionRole.Unallocated) eqn:Ecu.
      + split; [discriminate |].
        intros [H | [q' [Hq H]]]; [discriminate |]. injection Hq as <-.
        rewrite Em, Eu, Ee in H.
        destruct H as [H | [H | [[_ H] | [H _]]]]; try discriminate.
        exfalso. apply H. exists c. rewrite Ec. now split.
      + split; [| reflexivity]. intros _. right. exists q. split; [reflexivity |].
        right; right; left. split; [assumption |].
        intros [c0 [H H0]]. rewrite Ec in H. injection H as ->. congruence.
    - split; [| reflexivity]. intros _. right. exists q. split; [reflexivity |].
      right; right; left. split; [assumption |].
      intros [c0 [H _]]. rewrite Ec in H. discriminate. }
  destruct (PartitionRole.has (Partition.roles q) PartitionRole.Luks) eqn:El.
  { destruct (FileSystem.asLuks (Partition.fileSystem q)) as [l|] eqn:Ef.
    - destruct (FileSystem.isCryptOpen l) eqn:Eo; cbn [orb].
      + split; [| reflexivity]. intros _. right. exists q. split; [reflexivity |].
        right; right; right. split; [assumption | split; [assumption |]].
        right. exists l. tauto.
      + destruct (FileSystem.isMounted l) eqn:Elm.
        * split; [| reflexivity]. intros _. right. exists q. split; [reflexivity |].
          right; right; right. split; [assumption | split; [assumption |]].
        right. exists l. tauto.
        * split; [discriminate |].
          intros [H | [q' [Hq H]]]; [discriminate |]. injection Hq as <-.
          rewrite Em, Eu, Ee, Ef in H.
          destruct H as [H | [H | [[H _] | [_ [_ [H | [l' [Hl H]]]]]]]];
            try discriminate.
          injection Hl as <-. rewrite Eo, Elm in H. destruct H; discriminate.
    - split; [| reflexivity]. intros _. right. exists q. split; [reflexivity |].
      right; right; right. split; [assumption | split; [assumption |]]. now left. }
  split; [discriminate |].
  intros [H | [q' [Hq H]]]; [discriminate |]. injection Hq as <-.
  rewrite Em, Eu, Ee, El in H.
  destruct H as [H | [H | [[H _] | [_ [H _]]]]]; discriminate.
Qed.

(** C5, as the spec states it, fails: an operation that was constructed and
    never previewed was not undone, and its destructor leaves the partition
    alone. *)
Lemma destructor_keeps_partition_of_new_operation :
  ~ (forall s : Staged,
        reachable (new Samples.sda Samples.sda5 NoShred) s ->
        (destructor_deletes (operation s) = true <-> undone s = false)).
Proof.
  intros H.
  specialize (H _ (reachable_new _)). cbn in H.
  destruct H as [_ H]. specialize (H eq_refl). discriminate.
Qed.

Lemma reachable_undone_pending (op : t) (s : Staged) :
  reachable op s -> undone s = true -> status (operation s) = StatusPending.
Proof.
  intros Hr. induction Hr as [| s s' Hr IH Hstep]; cbn.
  - discriminate.
  - destruct Hstep; cbn; intros Hu; try discriminate. assumption.
Qed.

(** C5, amended. The destructor deletes the partition exactly when the
    status is neither Pending nor None; an operation that was undone is
    Pending, so its partition is kept. *)
Theorem destructor_deletes_iff (op : t) :
  (destructor_deletes op = true <->
   status op <> StatusPending /\ status op <> StatusNone)
  /\ (forall s : Staged,
         reachable op s -> undone s = true ->
         destructor_deletes (operation s) = false).
Proof.
  split.
  - unfold destructor_deletes. destruct (status op); cbn; intuition congruence.
  - intros s Hr Hu. unfold destructor_deletes.
    now rewrite (reachable_undone_pending op s Hr Hu).
Qed.

End DeleteOperationFacts.

(** ** The libparted scan *)

Section ScanFacts.

Import LibPartedBackend.

Variable FileSystem_detectFileSystem : string -> FileSystem.Type_.
Variable luks_mapperName : string -> string.
Variable isMounted : string -> bool.
Variable mountPoints : list KMountPoint.
Variable numberOfPath : string -> Z.
Variable findPartitionBySector :
  PartitionTable.t -> Z -> PartitionRole.Roles -> option PartitionNode.

Let newPartition :=
  newPartition FileSystem_detectFileSystem luks_mapperName isMounted mountPoints
    numberOfPath findPartitionBySector.
Let scanPartition :=
  scanPartition FileSystem_detectFileSystem luks_mapperName isMounted mountPoints
    numberOfPath findPartitionBySector.
Let scanLoop :=
  scanLoop FileSystem_detectFileSystem luks_mapperName isMounted mountPoints
    numberOfPath findPartitionBySector.
Let scanDevicePartitions :=
  scanDevicePartitions FileSystem_detectFileSystem luks_mapperName isMounted
    mountPoints numberOfPath findPartitionBySector.

Lemma classify_None_iff (pedPartition : PedPartition) (detected : FileSystem.Type_) :
  classify pedPartition detected = Datatypes.None <->
  (type pedPartition =? PED_PARTITION_NORMAL)
  || (type pedPartition =? PED_PARTITION_EXTENDED)
  || (type pedPartition =? PED_PARTITION_LOGICAL) = false.
Proof.
  unfold classify.
  destruct (type pedPartition =? PED_PARTITION_NORMAL);
    destruct (type pedPartition =? PED_PARTITION_EXTENDED);
    destruct (type pedPartition =? PED_PARTITION_LOGICAL); cbn;
    split; congruence.
Qed.

Lemma newPartition_None_iff (pt : PartitionTable.t) (pedPartition : PedPartition) :
  newPartition pt pedPartition = Datatypes.None <-> representable pedPartition = false.
Proof.
  subst newPartition. unfold LibPartedBackend.newPartition, representable.
  rewrite Z.leb_antisym.
  destruct (num pedPartition <? 1); cbn [negb andb]; [tauto |].
  rewrite <- (classify_None_iff pedPartition
                (detectFileSystem FileSystem_detectFileSystem pedPartition)).
  destruct (classify pedPartition _) as [[r t]|]; [| tauto].
  destruct (resolveMount _ _ _ _ _ _) as [[fs mp] m]. split; discriminate.
Qed.

Lemma scanPartition_skip (st : Scan) (pedPartition : PedPartition) :
  representable pedPartition = false -> scanPartition st pedPartition = st.
Proof.
  intros H. subst scanPartition. unfold LibPartedBackend.scanPartition.
  apply (newPartition_None_iff (Device.partitionTable (device st))) in H.
  subst newPartition. cbv beta in H. now rewrite H.
Qed.

Lemma scanPartition_keep (st : Scan) (pedPartition : PedPartition) :
  representable pedPartition = true ->
  List.length (partitions (scanPartition st pedPartition))
  = S (List.length (partitions st)).
Proof.
  intros H. subst scanPartition. unfold LibPartedBackend.scanPartition.
  destruct (LibPartedBackend.newPartition _ _ _ _ _ _ _ _) as [part|] eqn:E.
  - cbn [partitions]. rewrite length_app. cbn. lia.
  - apply (newPartition_None_iff (Device.partitionTable (device st))) in E.
    congruence.
Qed.

Lemma fold_scan_filter (records : list PedPartition) :
  forall st : Scan,
    fold_left scanPartition records st
    = fold_left scanPartition (filter representable records) st.
Proof.
  induction records as [|r records IH]; intros st; cbn [fold_left filter].
  - reflexivity.
  - destruct (representable r) eqn:E; cbn [fold_left].
    + apply IH.
    + rewrite (scanPartition_skip st r E). apply IH.
Qed.

Lemma fold_scan_length (records : list PedPartition) :
  forall st : Scan,
    List.length (partitions (fold_left scanPartition records st))
    = (List.length (partitions st)
       + List.length (filter representable records))%nat.
Proof.
  induction records as [|r records IH]; intros st; cbn [fold_left filter].
  - cbn. lia.
  - rewrite IH. destruct (representable r) eqn:E.
    + rewrite (scanPartition_keep st r E). cbn [List.length]. lia.
    + now rewrite (scanPartition_skip st r E).
Qed.

(** C7. A record without a partition number of at least 1, or of a kind that
    is not normal, extended or logical, leaves the device and the list of
    partitions as they are; the scan goes on, and its result is the result
    of scanning the remaining records alone, one partition for each. *)
Theorem scan_skips_unrepresentable (d : Device.t) (records : list PedPartition) :
  (forall st pedPartition,
      representable pedPartition = false -> scanPartition st pedPartition = st)
  /\ scanDevicePartitions d records
     = scanDevicePartitions d (filter representable records)
  /\ List.length (partitions (scanDevicePartitions d records))
     = List.length (filter representable records).
Proof.
  split; [exact scanPartition_skip | split].
  - subst scanDevicePartitions. unfold LibPartedBackend.scanDevicePartitions.
    unfold LibPartedBackend.scanLoop. fold scanPartition.
    now rewrite fold_scan_filter.
  - subst scanDevicePartitions. unfold LibPartedBackend.scanDevicePartitions.
    cbn [partitions]. unfold LibPartedBackend.scanLoop. fold scanPartition.
    now rewrite fold_scan_length.
Qed.

Lemma Type_eqb_eq (a b : FileSystem.Type_) :
  FileSystem.Type_eqb a b = true <-> a = b.
Proof.
  destruct a, b; cbn; split; congruence.
Qed.

(** C4. A partition the scan makes for a record whose file system is a LUKS
    container takes its mount point and its mounted state from the mapper
    node: the inner file system is loaded, from the mapper node, only when
    there is one, and a closed container is recorded as not mounted.  What
    libparted says about the raw node being busy, and what the mount table
    holds for other devices than the mapper node, does not matter. *)
Theorem luks_mount_state_from_mapper (pt : PartitionTable.t)
  (pedPartition : PedPartition) (part : Partition.t) :
  newPartition pt pedPartition = Some part ->
  FileSystem.type (Partition.fileSystem part) = FileSystem.Luks ->
  let mapperNode := luks_mapperName (fromUtf8 (path pedPartition)) in
  (if isEmpty mapperNode
   then FileSystem.asLuks (Partition.fileSystem part)
        = Some (FileSystem.mkLuks false false Datatypes.None)
        /\ Partition.mountPoint part = EmptyString
        /\ Partition.isMounted part = false
   else FileSystem.asLuks (Partition.fileSystem part)
        = Some (FileSystem.mkLuks true (isMounted mapperNode) (Some mapperNode))
        /\ Partition.mountPoint part = mountPointOf mountPoints mapperNode
        /\ Partition.isMounted part = isMounted mapperNode)
  /\ (forall (pedBusy : bool) (mountPoints' : list KMountPoint),
         findByDevice mountPoints' mapperNode = findByDevice mountPoints mapperNode ->
         LibPartedBackend.newPartition FileSystem_detectFileSystem luks_mapperName
           isMounted mountPoints' numberOfPath findPartitionBySector pt
           (mkPedPartition (num pedPartition) (type pedPartition)
              (geom_start pedPartition) (geom_end pedPartition)
              (path pedPartition) pedBusy)
         = Some part).
Proof.
  subst newPartition. unfold LibPartedBackend.newPartition.
  cbn [num type geom_start geom_end path busy].
  unfold detectFileSystem, classify. cbn [type path].
  destruct (num pedPartition <? 1); [discriminate |].
  match goal with
  | |- match ?c with _ => _ end = _ -> _ => destruct c as [[r t]|]
  end; [| discriminate].
  unfold resolveMount. cbn [FileSystemFactory_create FileSystem.type].
  destruct (FileSystem.Type_eqb t FileSystem.Luks) eqn:Et.
  - apply Type_eqb_eq in Et. subst t. unfold mountPointOf.
    destruct (isEmpty (luks_mapperName (fromUtf8 (path pedPartition)))) eqn:Em;
      cbn [negb]; intros H _; injection H as <-; cbn.
    + split; [repeat split |]. intros b mps' _. reflexivity.
    + split; [repeat split |]. intros b mps' ->. reflexivity.
  - intros H Ht. injection H as <-. cbn in Ht. subst t. discriminate.
Qed.

End ScanFacts.

(** ** Finding a node by sector *)

Section FindFacts.

Import PartitionNodes.

Lemma findPartitionBySector_in_Some (cs : list Partition.t) (s : Z)
  (role : PartitionRole.Roles) (q : Partition.t) :
  findPartitionBySector_in cs s role = Some q ->
  matches s role q = true
  /\ ((In q cs /\ forall c, In c (Partition.children q) -> matches s role c = false)
      \/ exists p, In p cs /\ In q (Partition.children p)).
Proof.
  induction cs as [|p cs IH]; cbn [findPartitionBySector_in]; [discriminate |].
  destruct (find (matches s role) (Partition.children p)) as [child|] eqn:Ec.
  - intros H. injection H as <-. apply find_some in Ec. destruct Ec as [Hin Hm].
    split; [assumption |]. right. exists p. split; [now left | assumption].
  - destruct (matches s role p) eqn:Ep.
    + intros H. injection H as <-. split; [assumption |]. left.
      split; [now left |]. intros c Hc. exact (find_none _ _ Ec c Hc).
    + intros H. destruct (IH H) as [Hm [[Hin Hch] | [p' [Hin Hq]]]].
      * split; [assumption |]. left. split; [now right | assumption].
      * split; [assumption |]. right. exists p'. split; [now right | assumption].
Qed.

Lemma findPartitionBySector_in_None (cs : list Partition.t) (s : Z)
  (role : PartitionRole.Roles) :
  findPartitionBySector_in cs s role = Datatypes.None ->
  forall p, In p cs ->
    matches s role p = false
    /\ forall c, In c (Partition.children p) -> matches s role c = false.
Proof.
  induction cs as [|p cs IH]; cbn [findPartitionBySector_in]; [intros _ p [] |].
  destruct (find (matches s role) (Partition.children p)) as [child|] eqn:Ec;
    [discriminate |].
  destruct (matches s role p) eqn:Ep; [discriminate |].
  intros H p' [<- | Hin].
  - split; [assumption |]. intros c Hc. exact (find_none _ _ Ec c Hc).
  - now apply IH.
Qed.

(** C6. [findPartitionBySector] never answers with the null pointer.  Its
    answer is the table root exactly when no partition and no child of a
    partition matches; otherwise it is a matching node of the tree, and no
    child of that node matches when it is a partition of the table.  In the
    scan, the parent is the table root whenever the search has no Extended
    match to give, be its answer then the root or the null pointer. *)
Theorem findPartitionBySector_innermost_or_root (pt : PartitionTable.t) (s : Z)
  (role : PartitionRole.Roles) :
  let unmatched (role : PartitionRole.Roles) :=
    forall p, In p (PartitionTable.children pt) ->
      matches s role p = false
      /\ forall c, In c (Partition.children p) -> matches s role c = false in
  (exists n, findPartitionBySector pt s role = Some n
     /\ match n with
        | TableNode => unmatched role
        | PartitionNode_ q =>
            matches s role q = true
            /\ ((In q (PartitionTable.children pt)
                 /\ forall c, In c (Partition.children q) -> matches s role c = false)
                \/ exists p, In p (PartitionTable.children pt)
                             /\ In q (Partition.children p))
        end)
  /\ (unmatched role -> findPartitionBySector pt s role = Some TableNode)
  /\ (unmatched [PartitionRole.Extended] ->
      LibPartedBackend.resolveParent findPartitionBySector pt s = TableNode)
  /\ (forall find,
         find pt s [PartitionRole.Extended] = Datatypes.None
         \/ find pt s [PartitionRole.Extended] = Some TableNode ->
         LibPartedBackend.resolveParent find pt s = TableNode).
Proof.
  intros unmatched.
  assert (Hroot : forall role', unmatched role' ->
                    findPartitionBySector pt s role' = Some TableNode).
  { intros role' Hu. unfold findPartitionBySector.
    destruct (findPartitionBySector_in _ s role') as [q|] eqn:E; [| reflexivity].
    apply findPartitionBySector_in_Some in E.
    destruct E as [Hm [[Hin _] | [p [Hin Hq]]]].
    - destruct (Hu q Hin) as [H _]. congruence.
    - destruct (Hu p Hin) as [_ H]. specialize (H q Hq). congruence. }
  split; [| split; [exact (Hroot role) | split]].
  - unfold findPartitionBySector.
    destruct (findPartitionBySector_in _ s role) as [q|] eqn:E.
    + exists (PartitionNode_ q). split; [reflexivity |].
      now apply findPartitionBySector_in_Some.
    + exists TableNode. split; [reflexivity |].
      exact (findPartitionBySector_in_None _ s role E).
  - intros Hu. unfold LibPartedBackend.resolveParent. now rewrite (Hroot _ Hu).
  - intros find [H | H]; unfold LibPartedBackend.resolveParent; now rewrite H.
Qed.

End FindFacts.

(** ** Lists of children *)

Section ChildListFacts.

Import PartitionNodes.

Context {A : Type}.
Variables pred keep : A -> bool.

Lemma mapFirst_map (f f' h : A -> A) (l : list A) :
  (forall c, pred (h c) = pred c) ->
  (forall c, h (f c) = f' (h c)) ->
  map h (mapFirst pred f l) = mapFirst pred f' (map h l).
Proof.
  intros Hp Hf. induction l as [|x l IH]; cbn [mapFirst map]; [reflexivity |].
  rewrite Hp. destruct (pred x); cbn [map]; congruence.
Qed.

Lemma mapFirst_filter (f : A -> A) (l : list A) :
  (forall c, pred c = true -> keep c = true) ->
  (forall c, keep (f c) = keep c) ->
  filter keep (mapFirst pred f l) = mapFirst pred f (filter keep l).
Proof.
  intros Hp Hf. induction l as [|x l IH]; cbn [mapFirst filter]; [reflexivity |].
  destruct (pred x) eqn:Ex.
  - cbn [filter]. rewrite Hf, (Hp x Ex). cbn [mapFirst]. now rewrite Ex.
  - cbn [filter]. destruct (keep x); cbn [mapFirst]; [rewrite Ex |]; congruence.
Qed.

Lemma mapFirst_mapFirst (f1 f2 : A -> A) (l : list A) :
  (forall c, pred (f1 c) = pred c) ->
  mapFirst pred f2 (mapFirst pred f1 l) = mapFirst pred (fun c => f2 (f1 c)) l.
Proof.
  intros Hp. induction l as [|x l IH]; cbn [mapFirst]; [reflexivity |].
  destruct (pred x) eqn:Ex; cbn [mapFirst].
  - now rewrite Hp, Ex.
  - rewrite Ex. congruence.
Qed.

Lemma mapFirst_find_ext (f f' : A -> A) (l : list A) (c : A) :
  find pred l = Some c -> f c = f' c -> mapFirst pred f l = mapFirst pred f' l.
Proof.
  intros Hfind Hc. induction l as [|x l IH]; cbn [mapFirst]; [reflexivity |].
  cbn [find] in Hfind. destruct (pred x).
  - injection Hfind as ->. congruence.
  - now rewrite IH.
Qed.

Lemma mapFirst_id (l : list A) : mapFirst pred (fun c => c) l = l.
Proof.
  induction l as [|x l IH]; cbn [mapFirst]; [reflexivity |].
  destruct (pred x); congruence.
Qed.

Lemma removeFirst_filter (l : list A) :
  (forall c, pred c = true -> keep c = true) ->
  filter keep (removeFirst pred l) = removeFirst pred (filter keep l).
Proof.
  intros Hp. induction l as [|x l IH]; cbn [removeFirst filter]; [reflexivity |].
  destruct (pred x) eqn:Ex.
  - rewrite (Hp x Ex). cbn [removeFirst]. now rewrite Ex.
  - cbn [filter]. destruct (keep x); cbn [removeFirst]; [rewrite Ex |]; congruence.
Qed.

Lemma removeFirst_middle (l1 l2 : list A) (x : A) :
  Forall (fun c => pred c = false) l1 -> pred x = true ->
  removeFirst pred (l1 ++ x :: l2) = l1 ++ l2.
Proof.
  intros H1 Hx. induction H1 as [|y l1 Hy H1 IH]; cbn [app removeFirst].
  - now rewrite Hx.
  - rewrite Hy. congruence.
Qed.

Lemma filter_map_comm (h : A -> A) (l : list A) :
  (forall c, keep (h c) = keep c) ->
  filter keep (map h l) = map h (filter keep l).
Proof.
  intros Hk. induction l as [|x l IH]; cbn [map filter]; [reflexivity |].
  rewrite Hk. destruct (keep x); cbn [map]; congruence.
Qed.

Lemma filter_filter (l : list A) : filter keep (filter keep l) = filter keep l.
Proof.
  induction l as [|x l IH]; cbn [filter]; [reflexivity |].
  destruct (keep x) eqn:Ex; cbn [filter]; [rewrite Ex |]; congruence.
Qed.

Lemma find_mapFirst (f : A -> A) (l : list A) :
  (forall c, pred (f c) = pred c) ->
  find pred (mapFirst pred f l) = option_map f (find pred l).
Proof.
  intros Hp. induction l as [|x l IH]; cbn [mapFirst find]; [reflexivity |].
  destruct (pred x) eqn:Ex; cbn [find].
  - now rewrite Hp, Ex.
  - now rewrite Ex.
Qed.

Lemma find_map (h : A -> A) (l : list A) :
  (forall c, pred (h c) = pred c) ->
  find pred (map h l) = option_map h (find pred l).
Proof.
  intros Hp. induction l as [|x l IH]; cbn [map find]; [reflexivity |].
  rewrite Hp. now destruct (pred x).
Qed.

Lemma find_filter (l : list A) :
  (forall c, pred c = true -> keep c = true) ->
  find pred (filter keep l) = find pred l.
Proof.
  intros Hp. induction l as [|x l IH]; cbn [filter find]; [reflexivity |].
  destruct (pred x) eqn:Ex.
  - rewrite (Hp x Ex). cbn [find]. now rewrite Ex.
  - destruct (keep x); cbn [find]; [rewrite Ex |]; assumption.
Qed.

End ChildListFacts.

(** ** The partition tree *)

Section TreeFacts.

Import PartitionNodes.

Lemma setChildren_children (c : Partition.t) :
  Partition.setChildren (Partition.children c) c = c.
Proof. now destruct c. Qed.

Lemma isNode_real (k : Z) (c : Partition.t) :
  Partition.isNode k c = true -> negb (Partition.isUnallocated c) = true.
Proof.
  unfold Partition.isNode. intros H. now apply andb_true_iff in H.
Qed.

Lemma adjustNumber_cases (a b : Z) (c : Partition.t) :
  adjustNumber a b c = c
  \/ adjustNumber a b c = Partition.setNumber (Partition.number c - 1) c
  \/ adjustNumber a b c = Partition.setNumber (Partition.number c + 1) c.
Proof.
  unfold adjustNumber.
  destruct (negb (PartitionRole.has _ _)); [now left |].
  destruct (negb (a =? -1) && _); [right; now left |].
  destruct (negb (b =? -1) && _); [right; now right | now left].
Qed.

Lemma adjustNumber_isUnallocated (a b : Z) (c : Partition.t) :
  Partition.isUnallocated (adjustNumber a b c) = Partition.isUnallocated c.
Proof.
  destruct (adjustNumber_cases a b c) as [-> | [-> | ->]]; reflexivity.
Qed.

Lemma adjustNumber_undo (n : Z) (c : Partition.t) :
  (PartitionRole.has (Partition.roles c) PartitionRole.Logical = true ->
   Partition.number c <> n) ->
  adjustNumber (-1) n (adjustNumber n (-1) c) = c.
Proof.
  intros Hn. unfold adjustNumber. change (-1 =? -1) with true.
  cbn [negb andb].
  destruct (PartitionRole.has (Partition.roles c) PartitionRole.Logical) eqn:El;
    cbn [negb]; [| now rewrite El].
  specialize (Hn eq_refl).
  destruct (n =? -1) eqn:En; cbn [negb andb]; [now rewrite El |].
  destruct (n <=? Partition.number c) eqn:Ele.
  - cbn [Partition.roles Partition.setNumber Partition.number].
    rewrite El. cbn [negb].
    assert (E : (n <=? Partition.number c - 1) = true) by (apply Z.leb_le; lia).
    rewrite E.
    replace (Partition.number c - 1 + 1) with (Partition.number c) by lia.
    now destruct c.
  - now rewrite El, Ele.
Qed.

Lemma realOnly_map_fillGaps (h : Partition.t -> Partition.t) (r : NodeRef)
  (hi : Z) (l : list Partition.t) :
  (forall c, Partition.isUnallocated (h c) = Partition.isUnallocated c) ->
  forall lo, realOnly (map h (fillGaps r lo hi l)) = realOnly (map h l).
Proof.
  intros Hh. unfold realOnly.
  induction l as [|c l IH]; intros lo; cbn [fillGaps].
  - destruct (lo <=? hi); cbn [map filter]; [| reflexivity].
    now rewrite Hh.
  - rewrite map_app, filter_app. cbn [map filter]. rewrite IH.
    destruct (lo <? Partition.firstSector c); cbn [map filter app]; [| reflexivity].
    now rewrite Hh.
Qed.

Lemma realOnly_fillGaps (r : NodeRef) (lo hi : Z) (l : list Partition.t) :
  realOnly (fillGaps r lo hi l) = realOnly l.
Proof.
  pose proof (realOnly_map_fillGaps (fun c => c) r hi l (fun _ => eq_refl) lo) as H.
  now rewrite !map_id in H.
Qed.

Lemma find_fillGaps (k : Z) (r : NodeRef) (hi : Z) (l : list Partition.t) :
  forall lo, find (Partition.isNode k) (fillGaps r lo hi l) = find (Partition.isNode k) l.
Proof.
  induction l as [|c l IH]; intros lo; cbn [fillGaps].
  - now destruct (lo <=? hi).
  - destruct (lo <? Partition.firstSector c); cbn [app find]; now rewrite IH.
Qed.

Lemma removeUnallocated_idem (cs : list Partition.t) :
  removeUnallocated (removeUnallocated cs) = removeUnallocated cs.
Proof.
  unfold removeUnallocated, realOnly.
  set (keep := fun c => negb (Partition.isUnallocated c)).
  set (strip := fun c => Partition.setChildren (filter keep (Partition.children c)) c).
  rewrite (filter_map_comm keep strip (filter keep (map strip cs))) by reflexivity.
  rewrite filter_filter.
  rewrite <- (filter_map_comm keep strip) by reflexivity.
  rewrite map_map. f_equal. apply map_ext. intros c. subst strip.
  cbn [Partition.setChildren Partition.children Partition.parent Partition.roles
       Partition.fileSystem Partition.firstSector Partition.lastSector
       Partition.partitionPath Partition.number Partition.mountPoint
       Partition.isMounted].
  now rewrite filter_filter.
Qed.

Lemma removeUnallocated_insertUnallocated (lo hi : Z) (cs : list Partition.t) :
  removeUnallocated (insertUnallocated lo hi cs) = removeUnallocated cs.
Proof.
  unfold removeUnallocated, insertUnallocated.
  rewrite realOnly_map_fillGaps by reflexivity.
  rewrite map_map. f_equal. apply map_ext. intros c. unfold fillExtended.
  destruct (PartitionRole.has _ _); [| reflexivity].
  cbn [Partition.setChildren Partition.children Partition.parent Partition.roles
       Partition.fileSystem Partition.firstSector Partition.lastSector
       Partition.partitionPath Partition.number Partition.mountPoint
       Partition.isMounted].
  now rewrite realOnly_fillGaps.
Qed.

Lemma removeUnallocated_modifyChildren (k : Z)
  (g : list Partition.t -> list Partition.t) (cs : list Partition.t) :
  (forall l, realOnly (g l) = g (realOnly l)) ->
  removeUnallocated (modifyChildren [k] g cs)
  = modifyChildren [k] g (removeUnallocated cs).
Proof.
  intros Hg. unfold removeUnallocated. cbn [modifyChildren].
  rewrite mapFirst_map
    with (f' := fun c => Partition.setChildren (g (Partition.children c)) c).
  - unfold realOnly at 1 3. apply mapFirst_filter.
    + apply isNode_real.
    + reflexivity.
  - reflexivity.
  - intros c. cbn [Partition.setChildren Partition.children Partition.parent
                   Partition.roles Partition.fileSystem Partition.firstSector
                   Partition.lastSector Partition.partitionPath Partition.number
                   Partition.mountPoint Partition.isMounted].
    now rewrite Hg.
Qed.

Lemma modifyChildren_modifyChildren (k : Z)
  (g1 g2 : list Partition.t -> list Partition.t) (cs : list Partition.t) :
  modifyChildren [k] g2 (modifyChildren [k] g1 cs)
  = modifyChildren [k] (fun l => g2 (g1 l)) cs.
Proof.
  cbn [modifyChildren]. now rewrite mapFirst_mapFirst by reflexivity.
Qed.

Lemma modifyChildren_fixed (k : Z) (g : list Partition.t -> list Partition.t)
  (cs : list Partition.t) (parent : Partition.t) :
  find (Partition.isNode k) cs = Some parent ->
  g (Partition.children parent) = Partition.children parent ->
  modifyChildren [k] g cs = cs.
Proof.
  intros Hfind Hg. cbn [modifyChildren].
  rewrite (mapFirst_find_ext _ _ (fun c => c) cs parent Hfind).
  - apply mapFirst_id.
  - rewrite Hg. apply setChildren_children.
Qed.

Lemma roles_modifyChildren (k : Z) (g : list Partition.t -> list Partition.t)
  (cs : list Partition.t) :
  option_map Partition.roles (find (Partition.isNode k) (modifyChildren [k] g cs))
  = option_map Partition.roles (find (Partition.isNode k) cs).
Proof.
  cbn [modifyChildren]. rewrite find_mapFirst by reflexivity.
  now destruct (find _ cs).
Qed.

Lemma find_removeUnallocated (k : Z) (cs : list Partition.t) :
  find (Partition.isNode k) (removeUnallocated cs)
  = option_map (fun c => Partition.setChildren (realOnly (Partition.children c)) c)
      (find (Partition.isNode k) cs).
Proof.
  unfold removeUnallocated, realOnly at 1.
  rewrite find_filter by apply isNode_real.
  now rewrite find_map by reflexivity.
Qed.

Lemma roles_removeUnallocated (k : Z) (cs : list Partition.t) :
  option_map Partition.roles (find (Partition.isNode k) (removeUnallocated cs))
  = option_map Partition.roles (find (Partition.isNode k) cs).
Proof.
  rewrite find_removeUnallocated. now destruct (find _ cs).
Qed.

Lemma roles_insertUnallocated (k lo hi : Z) (cs : list Partition.t) :
  option_map Partition.roles (find (Partition.isNode k) (insertUnallocated lo hi cs))
  = option_map Partition.roles (find (Partition.isNode k) cs).
Proof.
  unfold insertUnallocated. rewrite find_fillGaps.
  rewrite find_map.
  - destruct (find _ cs) as [c|]; [| reflexivity]. cbn [option_map].
    unfold fillExtended. now destruct (PartitionRole.has _ _).
  - intros c. unfold fillExtended. now destruct (PartitionRole.has _ _).
Qed.

Lemma insert_middle (p : Partition.t) (r1 r2 : list Partition.t) :
  Forall (fun c => Partition.firstSector c < Partition.firstSector p) r1 ->
  Forall (fun c => Partition.firstSector p < Partition.firstSector c) r2 ->
  insert p (r1 ++ r2) = r1 ++ p :: r2.
Proof.
  intros H1 H2. induction H1 as [|c r1 Hc H1 IH]; cbn [app].
  - destruct H2 as [|c r2 Hc H2]; cbn [insert]; [reflexivity |].
    apply Z.ltb_lt in Hc. now rewrite Hc.
  - cbn [insert].
    assert (E : (Partition.firstSector p <? Partition.firstSector c) = false)
      by (apply Z.ltb_ge; lia).
    rewrite E. congruence.
Qed.

Lemma sortedBySector_middle (p : Partition.t) (r1 r2 : list Partition.t) :
  sortedBySector (r1 ++ p :: r2) ->
  Forall (fun c => Partition.firstSector c < Partition.firstSector p) r1
  /\ Forall (fun c => Partition.firstSector p < Partition.firstSector c) r2.
Proof.
  unfold sortedBySector. induction r1 as [|c r1 IH]; cbn [app]; intros H.
  - apply StronglySorted_inv in H. destruct H as [_ H]. now split.
  - apply StronglySorted_inv in H. destruct H as [Hs Hc].
    destruct (IH Hs) as [H1 H2]. split; [| assumption].
    constructor; [| assumption].
    rewrite Forall_forall in Hc. apply Hc. apply in_or_app. right. now left.
Qed.

End TreeFacts.

(** ** Deleting a logical partition and undoing it *)

Section DeleteUndoFacts.

Import PartitionNodes Operation DeleteOperation.

Lemma checkAdjustLogicalNumbers_extended (d : Device.t) (p : Partition.t)
  (undo : bool) (k : Z) (rs : PartitionRole.Roles) :
  Partition.parent p = [k] ->
  option_map Partition.roles
    (find (Partition.isNode k) (PartitionTable.children (Device.partitionTable d)))
  = Some rs ->
  PartitionRole.has rs PartitionRole.Extended = true ->
  checkAdjustLogicalNumbers d p undo
  = Device.modifyChildren [k]
      (adjustLogicalNumbers (if undo then -1 else Partition.number p)
         (if undo then Partition.number p else -1)) d.
Proof.
  intros Hp Hr He. unfold checkAdjustLogicalNumbers. rewrite Hp. cbn [lookup].
  destruct (find _ _) as [c|]; cbn [option_map] in Hr; [| discriminate].
  injection Hr as <-. now rewrite He.
Qed.

Lemma realOnly_remove (p : Partition.t) (l : list Partition.t) :
  realOnly (remove p l) = remove p (realOnly l).
Proof.
  unfold remove, realOnly. apply removeFirst_filter. apply isNode_real.
Qed.

Lemma realOnly_adjustLogicalNumbers (a b : Z) (l : list Partition.t) :
  realOnly (adjustLogicalNumbers a b l) = adjustLogicalNumbers a b (realOnly l).
Proof.
  unfold adjustLogicalNumbers, realOnly. apply filter_map_comm.
  intros c. now rewrite adjustNumber_isUnallocated.
Qed.

(** Among the real children of the parent, taking [p] out, renumbering down
    and up again and putting [p] back changes nothing. *)
Lemma remove_adjust_insert (p : Partition.t) (l : list Partition.t) :
  Partition.isUnallocated p = false ->
  In p l ->
  sortedBySector l ->
  (forall c, In c l -> c <> p -> Partition.number c <> Partition.number p) ->
  insert p
    (adjustLogicalNumbers (-1) (Partition.number p)
       (adjustLogicalNumbers (Partition.number p) (-1) (remove p l)))
  = l.
Proof.
  intros Hreal Hin Hsorted Hnum.
  destruct (in_split _ _ Hin) as [r1 [r2 ->]].
  destruct (sortedBySector_middle p r1 r2 Hsorted) as [H1 H2].
  unfold remove. rewrite removeFirst_middle.
  - unfold adjustLogicalNumbers. rewrite map_map.
    rewrite (map_ext_in _ (fun c => c)), map_id; [now apply insert_middle |].
    intros c Hc. apply adjustNumber_undo. intros _. apply Hnum.
    + apply in_app_or in Hc. apply in_or_app.
      destruct Hc; [now left | right; now right].
    + intros ->. apply in_app_or in Hc. destruct Hc as [Hc | Hc].
      * rewrite Forall_forall in H1. specialize (H1 _ Hc). lia.
      * rewrite Forall_forall in H2. specialize (H2 _ Hc). lia.
  - eapply Forall_impl; [| exact H1]. intros c Hc. cbv beta in Hc.
    unfold Partition.isNode.
    assert (E : (Partition.firstSector c =? Partition.firstSector p) = false)
      by (apply Z.eqb_neq; lia).
    rewrite E. apply andb_false_r.
  - unfold Partition.isNode. now rewrite Hreal, Z.eqb_refl.
Qed.

(** C2. Let the free space of the table be in place, and let the deleted
    partition [p] be a real child of the Extended partition its parent
    pointer names, whose real children are in the order of their sectors and
    all carry another number than [p].  Then [undo] after [preview] gives
    back the device as it was: [p] is where it was and every sibling has its
    old number. *)
Theorem preview_undo_restores (d : Device.t) (op : DeleteOperation.t) (k : Z)
  (extended : Partition.t) :
  let p := m_DeletedPartition op in
  let pt := Device.partitionTable d in
  updateUnallocated pt = pt ->
  Partition.parent p = [k] ->
  lookup [k] (PartitionTable.children pt) = Some extended ->
  PartitionRole.has (Partition.roles extended) PartitionRole.Extended = true ->
  In p (Partition.children extended) ->
  Partition.isUnallocated p = false ->
  sortedBySector (realOnly (Partition.children extended)) ->
  (forall c, In c (Partition.children extended) -> c <> p ->
             Partition.number c <> Partition.number p) ->
  undo op (preview op d) = d.
Proof.
  intros p pt Hcanon Hparent Hlookup Hext Hin Hreal Hsorted Hnum.
  destruct d as [node [lo hi cs]]. subst pt.
  cbn [Device.partitionTable PartitionTable.children] in *.
  unfold updateUnallocated in Hcanon.
  cbn [PartitionTable.setChildren PartitionTable.firstUsable
       PartitionTable.lastUsable PartitionTable.children] in Hcanon.
  injection Hcanon as Hcanon.
  assert (Hfind : find (Partition.isNode k) cs = Some extended).
  { cbn [lookup] in Hlookup. now destruct (find _ cs). }
  assert (Hroles : option_map Partition.roles (find (Partition.isNode k) cs)
                   = Some (Partition.roles extended)) by now rewrite Hfind.
  (* preview *)
  set (removed := insertUnallocated lo hi
                    (removeUnallocated (modifyChildren [k] (remove p) cs))).
  assert (Hremoved : removePreviewPartition
                       (Device.mk node (PartitionTable.mk lo hi cs)) p
                     = Device.mk node (PartitionTable.mk lo hi removed)).
  { unfold removePreviewPartition. now rewrite Hparent. }
  assert (Hpreview : preview op (Device.mk node (PartitionTable.mk lo hi cs))
                     = Device.mk node
                         (PartitionTable.mk lo hi
                            (modifyChildren [k]
                               (adjustLogicalNumbers (Partition.number p) (-1))
                               removed))).
  { unfold preview. fold p. rewrite Hremoved.
    rewrite (checkAdjustLogicalNumbers_extended _ p false k
               (Partition.roles extended) Hparent); [reflexivity | | exact Hext].
    cbn [Device.partitionTable PartitionTable.children]. subst removed.
    now rewrite roles_insertUnallocated, roles_removeUnallocated,
      roles_modifyChildren. }
  rewrite Hpreview.
  (* undo *)
  unfold undo. fold p.
  rewrite (checkAdjustLogicalNumbers_extended _ p true k
             (Partition.roles extended) Hparent); [| | exact Hext].
  2:{ cbn [Device.partitionTable PartitionTable.children]. subst removed.
      now rewrite roles_modifyChildren, roles_insertUnallocated,
        roles_removeUnallocated, roles_modifyChildren. }
  unfold insertPreviewPartition. rewrite Hparent.
  cbv [Device.modifyChildren updateUnallocated
       Device.partitionTable Device.setPartitionTable Device.deviceNode
       PartitionTable.children PartitionTable.setChildren
       PartitionTable.firstUsable PartitionTable.lastUsable].
  do 2 f_equal.
  (* the children of the table *)
  subst removed.
  rewrite modifyChildren_modifyChildren.
  rewrite (removeUnallocated_modifyChildren k
             (fun l => adjustLogicalNumbers _ _ (adjustLogicalNumbers _ _ l)))
    by (intros l; now rewrite !realOnly_adjustLogicalNumbers).
  rewrite removeUnallocated_insertUnallocated, removeUnallocated_idem.
  rewrite (removeUnallocated_modifyChildren k (remove p))
    by (intros l; apply realOnly_remove).
  rewrite !modifyChildren_modifyChildren.
  rewrite (modifyChildren_fixed k _ (removeUnallocated cs)
             (Partition.setChildren (realOnly (Partition.children extended)) extended)).
  - now rewrite removeUnallocated_idem.
  - now rewrite find_removeUnallocated, Hfind.
  - cbn [Partition.setChildren Partition.children].
    apply remove_adjust_insert; [assumption | | assumption |].
    + unfold realOnly. apply filter_In. split; [assumption |]. now rewrite Hreal.
    + intros c Hc. apply Hnum. unfold realOnly in Hc. now apply filter_In in Hc.
Qed.

End DeleteUndoFacts.

(** Deleting [/dev/sda5] on the sample disk: the preview leaves the former
    [/dev/sda6] as the only logical partition, numbered 5, behind the freed
    sectors; undoing it gives the disk back. *)
Lemma preview_undo_restores_witness :
  let op := DeleteOperation.new Samples.sda Samples.sda5 DeleteOperation.NoShred in
  PartitionTable.children
    (Device.partitionTable (DeleteOperation.preview op Samples.sda))
  = [ Samples.sda1;
      Partition.setChildren
        [ PartitionNodes.unallocated [100000] 100000 200000;
          Partition.setNumber 5 Samples.sda6;
          PartitionNodes.unallocated [100000] 300001 500000 ]
        Samples.sda2;
      PartitionNodes.unallocated [] 500001 1000000 ]
  /\ DeleteOperation.undo op (DeleteOperation.preview op Samples.sda) = Samples.sda.
Proof.
  intros op. split; [reflexivity |].
  apply (preview_undo_restores Samples.sda op 100000 Samples.sda2).
  - reflexivity.
  - reflexivity.
  - reflexivity.
  - reflexivity.
  - now left.
  - reflexivity.
  - unfold PartitionNodes.sortedBySector. cbn.
    repeat constructor; cbn; lia.
  - intros c [<- | [<- | [<- | []]]] Hc; cbn; [now elim Hc | lia | lia].
Defined.

(** ** The properties on the sample disk *)

(** The scan of the first sample record, with the container open: the
    partition is mounted where the mapper node is mounted. *)
Lemma luks_mount_state_from_mapper_witness :
  let part :=
    Partition.mk [] [PartitionRole.Primary]
      (FileSystem.mk FileSystem.Luks 2048 99999
         (Some (FileSystem.mkLuks true true (Some "/dev/mapper/luks-sda1"%string))))
      2048 99999 "/dev/sda1" 1 "/home" true [] in
  LibPartedBackend.newPartition Samples.detect Samples.mapperName Samples.mounted
    Samples.mountTable Samples.numberOfPath PartitionNodes.findPartitionBySector
    (Device.partitionTable Samples.emptyDisk) Samples.ped_sda1
  = Some part
  /\ FileSystem.asLuks (Partition.fileSystem part)
     = Some (FileSystem.mkLuks true true (Some "/dev/mapper/luks-sda1"%string))
  /\ Partition.mountPoint part = "/home"%string
  /\ Partition.isMounted part = true.
Proof.
  intros part. split; [reflexivity |].
  exact (proj1 (luks_mount_state_from_mapper Samples.detect Samples.mapperName
                  Samples.mounted Samples.mountTable Samples.numberOfPath
                  PartitionNodes.findPartitionBySector
                  (Device.partitionTable Samples.emptyDisk) Samples.ped_sda1 part
                  eq_refl eq_refl)).
Defined.

(** Sector 3000 of the sample disk lies in no extended partition: a
    partition starting there has the table as its parent. *)
Lemma findPartitionBySector_innermost_or_root_witness :
  LibPartedBackend.resolveParent PartitionNodes.findPartitionBySector
    (Device.partitionTable Samples.sda) 3000
  = TableNode.
Proof.
  apply (proj1 (proj2 (proj2 (findPartitionBySector_innermost_or_root
                                (Device.partitionTable Samples.sda) 3000
                                [PartitionRole.Extended])))).
  intros p [<- | [<- | [<- | []]]]; (split; [reflexivity |]).
  - intros c [].
  - intros c [<- | [<- | [<- | []]]]; reflexivity.
  - intros c [].
Defined.

(** The metadata record at the head of the sample records is passed over,
    and the four partitions behind it are found. *)
Lemma scan_skips_unrepresentable_witness :
  let start := LibPartedBackend.mkScan Samples.emptyDisk [] in
  LibPartedBackend.scanPartition Samples.detect Samples.mapperName Samples.mounted
    Samples.mountTable Samples.numberOfPath PartitionNodes.findPartitionBySector
    start
    (LibPartedBackend.mkPedPartition (-1) LibPartedBackend.PED_PARTITION_METADATA
       0 2047 Datatypes.None false)
  = start.
Proof.
  intros start.
  apply (proj1 (scan_skips_unrepresentable Samples.detect Samples.mapperName
                  Samples.mounted Samples.mountTable Samples.numberOfPath
                  PartitionNodes.findPartitionBySector
                  Samples.emptyDisk Samples.records)).
  reflexivity.
Defined.

(** An operation that was pushed and undone is reachable, and its
    destructor keeps the partition. *)
Lemma destructor_deletes_iff_witness :
  let op := DeleteOperation.new Samples.sda Samples.sda5 DeleteOperation.NoShred in
  let s := DeleteOperation.mkStaged
             (DeleteOperation.setStatus Operation.StatusPending op) true true in
  DeleteOperation.reachable op s
  /\ DeleteOperation.destructor_deletes (DeleteOperation.operation s) = false.
Proof.
  intros op s.
  assert (Hr : DeleteOperation.reachable op s).
  { eapply DeleteOperation.reachable_step.
    - eapply DeleteOperation.reachable_step.
      + apply DeleteOperation.reachable_new.
      + apply DeleteOperation.step_push. reflexivity.
    - apply DeleteOperation.step_undo. reflexivity. }
  split; [exact Hr |].
  exact (proj2 (destructor_deletes_iff op) s Hr eq_refl).
Defined.

(* ================================================================= *)
(** * Part III: further properties of the code *)
(* ================================================================= *)

(** ** ext2: support tools and used capacity *)

Section Ext2SupportFacts.

Variables cmdSupportNone cmdSupportCore cmdSupportFileSystem : Z.
Variable findExternal : string -> option (list string) -> bool.

(** X1. With [cmdSupportNone] the zero enumerator and the other two
    enumerators different from it, [supportToolFound] holds after [init]
    exactly when all six helper programs were found. *)
Theorem ext2_supportToolFound_after_init :
  cmdSupportNone = 0 -> cmdSupportCore <> 0 -> cmdSupportFileSystem <> 0 ->
  Ext2Ops.supportToolFound cmdSupportNone
    (Ext2.init cmdSupportNone cmdSupportCore cmdSupportFileSystem findExternal)
  = true
  <-> findExternal "dumpe2fs" Datatypes.None = true
      /\ findExternal "e2label" Datatypes.None = true
      /\ findExternal "mkfs.ext2" Datatypes.None = true
      /\ findExternal "e2fsck" (Some ["-V"%string]) = true
      /\ findExternal "tune2fs" Datatypes.None = true
      /\ findExternal "resize2fs" Datatypes.None = true.
Proof.
  intros -> Hc Hf.
  apply Z.eqb_neq in Hc, Hf.
  unfold Ext2Ops.supportToolFound, Ext2.init, Ext2.tool, Ext2.as_bool.
  cbn [Ext2.m_GetUsed Ext2.m_GetLabel Ext2.m_Create Ext2.m_Grow Ext2.m_Shrink
       Ext2.m_Move Ext2.m_Check Ext2.m_Copy Ext2.m_Backup Ext2.m_SetLabel
       Ext2.m_UpdateUUID Ext2.m_GetUUID].
  destruct (findExternal "dumpe2fs" Datatypes.None);
    destruct (findExternal "e2label" Datatypes.None);
    destruct (findExternal "mkfs.ext2" Datatypes.None);
    destruct (findExternal "e2fsck" (Some ["-V"%string]));
    destruct (findExternal "tune2fs" Datatypes.None);
    destruct (findExternal "resize2fs" Datatypes.None);
    repeat (rewrite ?Hc, ?Hf; cbn);
    intuition congruence.
Qed.

End Ext2SupportFacts.

(** A machine with every helper program, at the enumerator values 0, 1, 2. *)
Lemma ext2_supportToolFound_after_init_witness :
  Ext2Ops.supportToolFound 0 (Ext2.init 0 1 2 (fun _ _ => true)) = true.
Proof.
  apply (ext2_supportToolFound_after_init 0 1 2 (fun _ _ => true));
    [reflexivity | lia | lia |].
  repeat split.
Defined.

Lemma wrap64_small (z : Z) :
  - 2 ^ 63 <= z < 2 ^ 63 -> Ext2Ops.wrap64 z = z.
Proof.
  intros H. unfold Ext2Ops.wrap64. rewrite Z.mod_small; lia.
Qed.

Section Ext2ReadUsedFacts.

Variable execute : string -> list string -> ExternalCommand.t.
Variable output : string -> list string -> string.
Variable captured : string -> string -> option Z.

(** X2. [ext2::readUsedCapacity] answers -1 when [dumpe2fs] cannot be run
    or one of the three fields is not in its output.  When all three are
    there, with no more free blocks than blocks and a product that fits,
    the answer is the bytes of the blocks in use, and is not negative: it
    cannot be taken for the failure value. *)
Theorem ext2_readUsedCapacity_result (deviceNode : string) :
  let args := ["-h"; deviceNode]%string in
  let text := output "dumpe2fs" args in
  let answer := Ext2Ops.readUsedCapacity execute output captured deviceNode in
  (ExternalCommand.run (execute "dumpe2fs" args) = false
   \/ captured "Block count:\s+(\d+)" text = Datatypes.None
   \/ captured "Free blocks:\s+(\d+)" text = Datatypes.None
   \/ captured "Block size:\s+(\d+)" text = Datatypes.None ->
   answer = -1)
  /\ (forall blockCount freeBlocks blockSize,
         ExternalCommand.run (execute "dumpe2fs" args) = true ->
         captured "Block count:\s+(\d+)" text = Some blockCount ->
         captured "Free blocks:\s+(\d+)" text = Some freeBlocks ->
         captured "Block size:\s+(\d+)" text = Some blockSize ->
         0 <= freeBlocks <= blockCount -> blockCount < 2 ^ 63 ->
         0 <= blockSize -> (blockCount - freeBlocks) * blockSize < 2 ^ 63 ->
         answer = (blockCount - freeBlocks) * blockSize /\ 0 <= answer).
Proof.
  intros args text answer. subst answer. unfold Ext2Ops.readUsedCapacity.
  fold args. fold text. unfold Ext2Ops.field. split.
  - intros Hcase. destruct (ExternalCommand.run _); [| reflexivity].
    destruct Hcase as [H | [H | [H | H]]]; [discriminate | | |];
      rewrite H; change (-1 <? -1) with false;
      rewrite ?andb_false_r; reflexivity.
  - intros bc fb bs Hrun H1 H2 H3 Hfb Hbc Hbs Hprod.
    rewrite Hrun, H1, H2, H3.
    assert (E1 : (-1 <? bc) = true) by (apply Z.ltb_lt; lia).
    assert (E2 : (-1 <? fb) = true) by (apply Z.ltb_lt; lia).
    assert (E3 : (-1 <? bs) = true) by (apply Z.ltb_lt; lia).
    rewrite E1, E2, E3. cbn [andb].
    rewrite (wrap64_small (bc - fb)) by lia.
    assert (0 <= (bc - fb) * bs) by (apply Z.mul_nonneg_nonneg; lia).
    rewrite wrap64_small by lia. split; [reflexivity | assumption].
Qed.

End Ext2ReadUsedFacts.

(** An output with 1000 blocks of 4096 bytes, 250 of them free. *)
Lemma ext2_readUsedCapacity_result_witness :
  let execute := fun (_ : string) (_ : list string) => ExternalCommand.mk true 0 in
  let output := fun (_ : string) (_ : list string) => "dumpe2fs 1.43"%string in
  let captured := fun (pattern : string) (_ : string) =>
    if String.eqb pattern "Block count:\s+(\d+)" then Some 1000
    else if String.eqb pattern "Free blocks:\s+(\d+)" then Some 250
    else Some 4096 in
  Ext2Ops.readUsedCapacity execute output captured "/dev/sda5" = 750 * 4096.
Proof.
  intros execute output captured.
  refine (proj1 (proj2 (ext2_readUsedCapacity_result execute output captured "/dev/sda5")
                   1000 250 4096 eq_refl eq_refl eq_refl eq_refl _ _ _ _)); lia.
Defined.

(** ** MovePhysicalVolumeJob: the destinations and the return value *)

Section MovePhysicalVolumeJobMoreFacts.

Import MovePhysicalVolumeJob.

Variable Lvm : Type.
Variable getPVs : Lvm -> string -> list string.
Variable movePV : Lvm -> string -> list string -> bool * Lvm.

Lemma removeAll_absent (p : string) (l : list string) :
  contains l p = false -> removeAll p l = l.
Proof.
  unfold contains, removeAll. induction l as [|x l IH]; cbn [existsb filter].
  - reflexivity.
  - intros H. apply orb_false_iff in H. destruct H as [Hx Hl].
    rewrite String.eqb_sym in Hx. rewrite Hx. cbn [negb]. now rewrite IH.
Qed.

Lemma filter_removeAll (p : string) (partList pvs : list string) :
  filter (fun d => negb (contains partList d)) (removeAll p pvs)
  = filter (fun d => negb (contains (p :: partList) d)) pvs.
Proof.
  unfold removeAll, contains.
  induction pvs as [|x pvs IH]; cbn [filter existsb] in *; [reflexivity |].
  destruct (String.eqb x p); cbn [negb orb filter]; [exact IH |].
  destruct (existsb (String.eqb x) partList); cbn [negb]; congruence.
Qed.

(** X4. The destinations are the physical volumes of the volume group, in
    their order and as often as they are listed, without the ones of the
    move list. *)
Theorem destinationsFor_keeps_order (partList pvs : list string) :
  destinationsFor pvs partList
  = filter (fun d => negb (contains partList d)) pvs.
Proof.
  unfold destinationsFor. revert pvs.
  induction partList as [|p partList IH]; intros pvs; cbn [fold_left].
  - induction pvs as [|x pvs IHp]; cbn [filter contains existsb negb] in *;
      [reflexivity | now f_equal].
  - rewrite IH, <- filter_removeAll. f_equal.
    destruct (contains pvs p) eqn:Ec; [reflexivity |].
    symmetry. now apply removeAll_absent.
Qed.

Lemma moveLoop_true (destinations partList : list string) :
  forall acc : Outcome Lvm,
    rval (moveLoop movePV destinations partList acc) = true ->
    (partList = [] /\ rval acc = true)
    \/ (partList <> [] /\ exists st', allMoved movePV destinations (lvm acc) partList st').
Proof.
  induction partList as [|p partList IH]; intros acc; cbn [moveLoop].
  - intros H. now left.
  - destruct (movePV (lvm acc) p destinations) as [r st'] eqn:Ep.
    destruct r; [| cbn [rval]; discriminate].
    intros H. right. split; [discriminate |].
    destruct (IH _ H) as [[-> _] | [_ [st'' Hm]]]; cbn [lvm] in *.
    + exists st'. eapply allMoved_cons; [exact Ep | constructor].
    + exists st''. eapply allMoved_cons; [exact Ep | exact Hm].
Qed.

(** X3. The job reports success exactly when the move list is not empty
    and every move of it succeeds; for the empty list it makes no call and
    reports failure. *)
Theorem run_succeeds_iff (st : Lvm) (deviceName : string) (partList : list string) :
  let destinations := destinationsFor (getPVs st deviceName) partList in
  (rval (run getPVs movePV st deviceName partList) = true <->
   partList <> [] /\ exists st', allMoved movePV destinations st partList st')
  /\ rval (run getPVs movePV st deviceName []) = false
  /\ calls (run getPVs movePV st deviceName []) = [].
Proof.
  intros destinations. split; [split | split; reflexivity].
  - intros H. unfold run in H. fold destinations in H.
    apply moveLoop_true in H. cbn [rval lvm] in H.
    destruct H as [[_ H] | H]; [discriminate | exact H].
  - intros [Hne [st' Hm]]. unfold run. fold destinations.
    rewrite (moveLoop_all_moved _ movePV destinations st st' partList Hm)
      by reflexivity.
    cbn [rval]. destruct partList; [now elim Hne | reflexivity].
Qed.

End MovePhysicalVolumeJobMoreFacts.

(** ** libparted: partition flags *)

Section FlagFacts.

Import LibPartedFlags.

Lemma Flag_eqb_eq (a b : Flag) : Flag_eqb a b = true <-> a = b.
Proof.
  destruct a, b; cbn; split; (reflexivity || discriminate).
Qed.

Lemma In_raise (f g : Flag) (flags : Flags) :
  In f (raise g flags) <-> In f flags \/ f = g.
Proof.
  unfold raise. destruct (existsb (Flag_eqb g) flags) eqn:E.
  - apply existsb_exists in E. destruct E as [x [Hx E]].
    apply Flag_eqb_eq in E. subst x. intuition congruence.
  - rewrite in_app_iff. cbn. intuition congruence.
Qed.

Lemma In_fold_raise (cond : PedPartitionFlag * Flag -> bool)
  (step : Flags -> PedPartitionFlag * Flag -> Flags)
  (f : Flag) (table : list (PedPartitionFlag * Flag)) :
  (forall flags entry,
      step flags entry = if cond entry then raise (snd entry) flags else flags) ->
  forall acc,
    In f (fold_left step table acc) <->
    In f acc \/ exists pedFlag, In (pedFlag, f) table /\ cond (pedFlag, f) = true.
Proof.
  intros Hstep. induction table as [|[pf g] table IH]; intros acc; cbn [fold_left].
  - cbn. split; [now left | intros [H | [pf [[] _]]]; exact H].
  - rewrite IH, Hstep. cbn [snd]. destruct (cond (pf, g)) eqn:Ec.
    + rewrite In_raise. split.
      * intros [[H | ->] | [pf' [Hin Hc]]].
        -- now left.
        -- right. exists pf. split; [now left | exact Ec].
        -- right. exists pf'. split; [now right | exact Hc].
      * intros [H | [pf' [[Heq | Hin] Hc]]].
        -- left. now left.
        -- injection Heq as -> ->. left. now right.
        -- right. exists pf'. now split.
    + split.
      * intros [H | [pf' [Hin Hc]]]; [now left |].
        right. exists pf'. split; [now right | exact Hc].
      * intros [H | [pf' [[Heq | Hin] Hc]]]; [now left | |].
        -- injection Heq as -> ->. congruence.
        -- right. exists pf'. now split.
Qed.

(** X7. [getPedFlag] reads the table backwards: it answers with a
    libparted flag exactly for the pairs of [flagmap]; two flags never get
    the same answer; every libparted flag of the table is the answer for
    some flag; and [FlagNone] alone gets the value past the table. *)
Theorem getPedFlag_inverts_flagmap :
  (forall pedFlag flag, In (pedFlag, flag) flagmap <-> getPedFlag flag = Some pedFlag)
  /\ (forall flag flag', getPedFlag flag = getPedFlag flag' <-> flag = flag')
  /\ (forall pedFlag, exists flag, getPedFlag flag = Some pedFlag)
  /\ (forall flag, getPedFlag flag = Datatypes.None <-> flag = FlagNone).
Proof.
  split; [| split; [| split]].
  - intros pf f. split.
    + unfold flagmap. intros H.
      repeat (destruct H as [H | H]; [injection H as <- <-; reflexivity |]).
      destruct H.
    + destruct f; cbn; intros H; try discriminate;
        injection H as <-; unfold flagmap; cbn; tauto.
  - intros f f'. destruct f, f'; cbn; split; intros H;
      (reflexivity || discriminate).
  - intros pf. destruct pf; eexists; unfold getPedFlag.
    + instantiate (1 := FlagBoot). reflexivity.
    + instantiate (1 := FlagRoot). reflexivity.
    + instantiate (1 := FlagSwap). reflexivity.
    + instantiate (1 := FlagHidden). reflexivity.
    + instantiate (1 := FlagRaid). reflexivity.
    + instantiate (1 := FlagLvm). reflexivity.
    + instantiate (1 := FlagLba). reflexivity.
    + instantiate (1 := FlagHpService). reflexivity.
    + instantiate (1 := FlagPalo). reflexivity.
    + instantiate (1 := FlagPrep). reflexivity.
    + instantiate (1 := FlagMsftReserved). reflexivity.
    + instantiate (1 := FlagBiosGrub). reflexivity.
    + instantiate (1 := FlagAppleTvRecovery). reflexivity.
    + instantiate (1 := FlagDiag). reflexivity.
    + instantiate (1 := FlagLegacyBoot). reflexivity.
    + instantiate (1 := FlagMsftData). reflexivity.
    + instantiate (1 := FlagIrst). reflexivity.
    + instantiate (1 := FlagEsp). reflexivity.
  - intros f. destruct f; cbn; split; intros H; (reflexivity || discriminate).
Qed.

Lemma In_flagmap_getPedFlag (pedFlag : PedPartitionFlag) (flag : Flag) :
  In (pedFlag, flag) flagmap <-> getPedFlag flag = Some pedFlag.
Proof.
  split.
  - unfold flagmap. intros H.
    repeat (destruct H as [H | H]; [injection H as <- <-; reflexivity |]).
    destruct H.
  - destruct flag; cbn; intros H; try discriminate;
      injection H as <-; unfold flagmap; cbn; tauto.
Qed.

Variable ped_partition_is_flag_available :
  LibPartedBackend.PedPartition -> PedPartitionFlag -> bool.
Variable ped_partition_get_flag :
  LibPartedBackend.PedPartition -> PedPartitionFlag -> bool.

Let activeFlags := activeFlags ped_partition_is_flag_available ped_partition_get_flag.
Let availableFlags := availableFlags ped_partition_is_flag_available.

Lemma In_activeFlags (p : LibPartedBackend.PedPartition) (flag : Flag) :
  In flag (activeFlags p) <->
  0 < LibPartedBackend.num p
  /\ exists pedFlag, In (pedFlag, flag) flagmap
       /\ ped_partition_is_flag_available p pedFlag = true
       /\ ped_partition_get_flag p pedFlag = true.
Proof.
  subst activeFlags. unfold LibPartedFlags.activeFlags.
  destruct (LibPartedBackend.num p <=? 0) eqn:En.
  - apply Z.leb_le in En. cbn. split; [tauto | lia].
  - apply Z.leb_gt in En.
    rewrite (In_fold_raise
               (fun e => ped_partition_is_flag_available p (fst e)
                         && ped_partition_get_flag p (fst e)))
      by reflexivity.
    cbn [fst In]. split.
    + intros [[] | [pf [Hin Hc]]]. apply andb_true_iff in Hc.
      split; [exact En |]. exists pf. tauto.
    + intros [_ [pf [Hin [Ha Hg]]]]. right. exists pf.
      split; [exact Hin |]. now rewrite Ha, Hg.
Qed.

Lemma In_availableFlags (p : LibPartedBackend.PedPartition) (flag : Flag) :
  In flag (availableFlags p) <->
  0 < LibPartedBackend.num p
  /\ ~ (LibPartedBackend.type p = LibPartedBackend.PED_PARTITION_EXTENDED
        /\ flag = FlagHidden)
  /\ exists pedFlag, In (pedFlag, flag) flagmap
       /\ ped_partition_is_flag_available p pedFlag = true.
Proof.
  subst availableFlags. unfold LibPartedFlags.availableFlags.
  destruct (LibPartedBackend.num p <=? 0) eqn:En.
  - apply Z.leb_le in En. cbn. split; [tauto | lia].
  - apply Z.leb_gt in En.
    rewrite (In_fold_raise
               (fun e => ped_partition_is_flag_available p (fst e)
                         && (negb (LibPartedBackend.type p
                                   =? LibPartedBackend.PED_PARTITION_EXTENDED)
                             || negb (Flag_eqb (snd e) FlagHidden)))).
    2:{ intros flags e. now destruct (ped_partition_is_flag_available p (fst e)). }
    cbn [fst snd In].
    assert (Hw : negb (LibPartedBackend.type p
                       =? LibPartedBackend.PED_PARTITION_EXTENDED)
                 || negb (Flag_eqb flag FlagHidden) = true
                 <-> ~ (LibPartedBackend.type p = LibPartedBackend.PED_PARTITION_EXTENDED
                        /\ flag = FlagHidden)).
    { rewrite orb_true_iff, !negb_true_iff, Z.eqb_neq.
      rewrite <- (Flag_eqb_eq flag FlagHidden).
      destruct (Flag_eqb flag FlagHidden);
        destruct (Z.eq_dec (LibPartedBackend.type p)
                    LibPartedBackend.PED_PARTITION_EXTENDED);
        intuition congruence. }
    split.
    + intros [[] | [pf [Hin Hc]]]. apply andb_true_iff in Hc. destruct Hc as [Ha Hc].
      split; [exact En |]. split; [now apply Hw |]. exists pf. now split.
    + intros [_ [Hn [pf [Hin Ha]]]]. right. exists pf.
      split; [exact Hin |]. rewrite Ha. now apply Hw.
Qed.

(** X5. A record without a partition number of at least 1 has no active
    and no available flags.  Every active flag of a partition is one of its
    available flags, but for the hidden flag of an extended partition,
    which can be active and is never available. *)
Theorem activeFlags_among_available (p : LibPartedBackend.PedPartition) :
  (LibPartedBackend.num p <= 0 -> activeFlags p = [] /\ availableFlags p = [])
  /\ (forall flag, In flag (activeFlags p) ->
        In flag (availableFlags p)
        \/ (LibPartedBackend.type p = LibPartedBackend.PED_PARTITION_EXTENDED
            /\ flag = FlagHidden))
  /\ (LibPartedBackend.type p = LibPartedBackend.PED_PARTITION_EXTENDED ->
      ~ In FlagHidden (availableFlags p)).
Proof.
  split; [| split].
  - intros Hn. apply Z.leb_le in Hn.
    subst activeFlags availableFlags.
    unfold LibPartedFlags.activeFlags, LibPartedFlags.availableFlags.
    now rewrite Hn.
  - intros flag H. apply In_activeFlags in H.
    destruct H as [Hn [pf [Hin [Ha _]]]].
    destruct (Z.eq_dec (LibPartedBackend.type p)
                LibPartedBackend.PED_PARTITION_EXTENDED) as [He | He].
    + destruct (Flag_eqb flag FlagHidden) eqn:Eh.
      * apply Flag_eqb_eq in Eh. now right.
      * left. apply In_availableFlags. split; [exact Hn |].
        split; [| exists pf; now split].
        intros [_ ->]. discriminate.
    + left. apply In_availableFlags. split; [exact Hn |].
      split; [tauto | exists pf; now split].
  - intros He H. apply In_availableFlags in H. tauto.
Qed.

(** X6. A flag is offered for a partition exactly when the partition has a
    number, libparted has the flag [getPedFlag] translates it to available,
    and it is not the hidden flag on an extended partition. *)
Theorem availableFlags_iff (p : LibPartedBackend.PedPartition) (flag : Flag) :
  In flag (availableFlags p) <->
  0 < LibPartedBackend.num p
  /\ ~ (LibPartedBackend.type p = LibPartedBackend.PED_PARTITION_EXTENDED
        /\ flag = FlagHidden)
  /\ exists pedFlag, getPedFlag flag = Some pedFlag
       /\ ped_partition_is_flag_available p pedFlag = true.
Proof.
  rewrite In_availableFlags.
  split; intros [Hn [Hh [pf [H Ha]]]]; (split; [exact Hn |]);
    (split; [exact Hh |]); exists pf; (split; [| exact Ha]);
    now apply In_flagmap_getPedFlag.
Qed.

End FlagFacts.

Lemma activeFlags_among_available_witness :
  let p := LibPartedBackend.mkPedPartition 2 LibPartedBackend.PED_PARTITION_EXTENDED
             100000 500000 (Some "/dev/sda2"%string) false in
  let available := fun (_ : LibPartedBackend.PedPartition)
                       (_ : LibPartedFlags.PedPartitionFlag) => true in
  let raised := fun (_ : LibPartedBackend.PedPartition)
                    (f : LibPartedFlags.PedPartitionFlag) =>
    match f with
    | LibPartedFlags.PED_PARTITION_BOOT | LibPartedFlags.PED_PARTITION_HIDDEN => true
    | _ => false
    end in
  LibPartedFlags.activeFlags available raised p
  = [LibPartedFlags.FlagBoot; LibPartedFlags.FlagHidden]
  /\ (In LibPartedFlags.FlagBoot (LibPartedFlags.availableFlags available p)
      \/ (LibPartedBackend.type p = LibPartedBackend.PED_PARTITION_EXTENDED
          /\ LibPartedFlags.FlagBoot = LibPartedFlags.FlagHidden))
  /\ ~ In LibPartedFlags.FlagHidden (LibPartedFlags.availableFlags available p).
Proof.
  intros p available raised. split; [reflexivity | split].
  - apply (proj1 (proj2 (activeFlags_among_available available raised p))).
    cbn. tauto.
  - apply (proj2 (proj2 (activeFlags_among_available available raised p))).
    reflexivity.
Defined.

(** ** libparted: usable sectors, used sectors, devices *)

Section DeviceFacts.

Import LibPartedDevices.

Lemma wrapU64_small (z : Z) : 0 <= z < 2 ^ 64 -> wrapU64 z = z.
Proof. intros H. unfold wrapU64. now apply Z.mod_small. Qed.

(** X8. On a disk that is not GPT, with a BIOS geometry of positive numbers
    whose product fits 64 bits, the usable sectors run from the number of
    sectors per track to the last sector of the geometry; this range is
    empty exactly for a disk of one head and one cylinder.  On a GPT disk
    the data area libparted keeps is taken as it is. *)
Theorem usable_sectors (disk : PedDisk) :
  (isGpt disk = false ->
   1 <= bios_sectors disk -> 1 <= bios_heads disk -> 1 <= bios_cylinders disk ->
   bios_sectors disk * bios_heads disk * bios_cylinders disk < 2 ^ 64 ->
   firstUsableSector (Some disk) = bios_sectors disk
   /\ lastUsableSector (Some disk)
      = bios_sectors disk * bios_heads disk * bios_cylinders disk - 1
   /\ (firstUsableSector (Some disk) <= lastUsableSector (Some disk)
       <-> 2 <= bios_heads disk * bios_cylinders disk))
  /\ (forall first last,
         isGpt disk = true -> data_area disk = Some (first, last) ->
         0 <= first < 2 ^ 64 -> 0 <= last < 2 ^ 64 ->
         firstUsableSector (Some disk) = first
         /\ lastUsableSector (Some disk) = last).
Proof.
  split.
  - intros Hg Hs Hh Hc Hp. unfold firstUsableSector, lastUsableSector.
    rewrite Hg.
    set (s := bios_sectors disk) in *. set (h := bios_heads disk) in *.
    set (c := bios_cylinders disk) in *.
    assert (Hsh : 1 <= s * h) by nia.
    assert (Hshc : s * h <= s * h * c) by nia.
    assert (Hs' : s <= s * h) by nia.
    assert (Hh' : h <= s * h) by nia.
    assert (Hc' : c <= s * h * c) by nia.
    rewrite (wrapU64_small s), (wrapU64_small h), (wrapU64_small c) by lia.
    rewrite (wrapU64_small (s * h)) by lia.
    rewrite (wrapU64_small (s * h * c)) by lia.
    rewrite (wrapU64_small (s * h * c - 1)) by lia.
    split; [reflexivity | split; [reflexivity |]].
    split; intros H; nia.
  - intros first last Hg Hd Hf Hl. unfold firstUsableSector, lastUsableSector.
    rewrite Hg, Hd. now rewrite !wrapU64_small by assumption.
Qed.

Variable LIBPARTED_FS_RESIZE_LIBRARY_SUPPORT : bool.
Variables cmdSupportCore cmdSupportFileSystem : Z.

Let readSectorsUsed :=
  readSectorsUsed LIBPARTED_FS_RESIZE_LIBRARY_SUPPORT cmdSupportCore
    cmdSupportFileSystem.


Variables PED_DEVICE_DM PED_DEVICE_LOOP : Z.
Variable ScannedDevice : Type.
Variable scanDevice : string -> option ScannedDevice.

Lemma wrapU32_small (z : Z) : 0 <= z < 2 ^ 32 -> wrapU32 z = z.
Proof. intros H. unfold wrapU32. now apply Z.mod_small. Qed.

Lemma collect_kept (excludeReadOnly : bool) (devices : list PedDevice) :
  forall (path : list string) (totalDevices : Z),
    0 <= totalDevices ->
    totalDevices
    + Z.of_nat (List.length (filter (kept PED_DEVICE_DM PED_DEVICE_LOOP excludeReadOnly)
                               devices)) < 2 ^ 32 ->
    collect PED_DEVICE_DM PED_DEVICE_LOOP excludeReadOnly devices path totalDevices
    = (path ++ map dev_path
                 (filter (kept PED_DEVICE_DM PED_DEVICE_LOOP excludeReadOnly) devices),
       totalDevices
       + Z.of_nat (List.length
                     (filter (kept PED_DEVICE_DM PED_DEVICE_LOOP excludeReadOnly)
                        devices))).
Proof.
  induction devices as [|dev devices IH]; intros path total H0 Hlt;
    cbn [collect filter] in *.
  - cbn. now rewrite app_nil_r, Z.add_0_r.
  - assert (Hk : kept PED_DEVICE_DM PED_DEVICE_LOOP excludeReadOnly dev
                 = negb (dev_type dev =? PED_DEVICE_DM)
                   && negb (excludeReadOnly
                            && ((dev_type dev =? PED_DEVICE_LOOP) || read_only dev)))
      by reflexivity.
    rewrite Hk in *. clear Hk.
    destruct (dev_type dev =? PED_DEVICE_DM); cbn [negb andb] in *.
    + now apply IH.
    + destruct (excludeReadOnly
                && ((dev_type dev =? PED_DEVICE_LOOP) || read_only dev));
        cbn [negb] in *.
      * now apply IH.
      * cbn [List.length map] in *. rewrite wrapU32_small by lia.
        rewrite IH by lia. rewrite <- app_assoc. cbn [app]. f_equal. lia.
Qed.

Lemma map_nth_seq (l : list string) :
  forall pre : list string,
    map (fun i => nth i (pre ++ l) EmptyString)
      (seq (List.length pre) (List.length l))
    = l.
Proof.
  induction l as [|x l IH]; intros pre; cbn [List.length seq map]; [reflexivity |].
  rewrite nth_middle. f_equal.
  specialize (IH (pre ++ [x])).
  rewrite <- app_assoc, length_app in IH. cbn [app List.length] in IH.
  now rewrite Nat.add_1_r in IH.
Qed.

Lemma fold_scanOne (path : list string) (totalDevices : Z) (indices : list nat) :
  forall acc : Scanned ScannedDevice,
    fold_left (scanOne scanDevice path totalDevices) indices acc
    = mkScanned
        (progress acc
         ++ map (fun i => (nth i path EmptyString,
                           wrapU32 (Z.of_nat i * 100) / totalDevices)) indices)
        (result acc
         ++ flat_map (fun i => match scanDevice (nth i path EmptyString) with
                               | Some d => [d]
                               | Datatypes.None => []
                               end) indices).
Proof.
  induction indices as [|i indices IH]; intros acc; cbn [fold_left map flat_map].
  - rewrite !app_nil_r. now destruct acc.
  - rewrite IH. unfold scanOne. cbn [progress result].
    rewrite <- app_assoc. cbn [app]. f_equal.
    destruct (scanDevice (nth i path EmptyString)); cbn [app].
    + now rewrite <- app_assoc.
    + reflexivity.
Qed.

(** X10. [scanDevices] passes over every device-mapper device and, when
    read-only devices are excluded, every loop and read-only device.  With
    fewer than 2^32 / 100 devices left, it reports progress for and scans
    each of them, in the order libparted lists them; the devices that could
    be scanned are returned in that order; and every percentage reported is
    below 100. *)
Theorem scanDevices_kept (excludeReadOnly : bool) (devices : list PedDevice) :
  let keptDevices := filter (kept PED_DEVICE_DM PED_DEVICE_LOOP excludeReadOnly) devices in
  let out := scanDevices PED_DEVICE_DM PED_DEVICE_LOOP scanDevice excludeReadOnly devices in
  Z.of_nat (List.length keptDevices) * 100 < 2 ^ 32 ->
  map fst (progress out) = map dev_path keptDevices
  /\ result out
     = flat_map (fun dev => match scanDevice (dev_path dev) with
                            | Some d => [d]
                            | Datatypes.None => []
                            end) keptDevices
  /\ Forall (fun report => 0 <= snd report < 100) (progress out).
Proof.
  intros keptDevices out Hn. subst out. unfold scanDevices.
  rewrite collect_kept by (fold keptDevices; lia).
  fold keptDevices. cbn [app Z.add]. rewrite Nat2Z.id, fold_scanOne.
  cbn [progress result app].
  set (path := map dev_path keptDevices).
  assert (Hlen : List.length keptDevices = List.length path)
    by (subst path; now rewrite length_map).
  assert (Hpath : map (fun i => nth i path EmptyString) (seq 0 (List.length path))
                  = path) by exact (map_nth_seq path []).
  rewrite Hlen. split; [| split].
  - rewrite map_map. cbn [fst]. exact Hpath.
  - set (scanned := fun node => match scanDevice node with
                                | Some d => [d]
                                | Datatypes.None => []
                                end).
    transitivity (flat_map scanned path).
    + rewrite !flat_map_concat_map.
      rewrite <- (map_map (fun i => nth i path EmptyString) scanned).
      now rewrite Hpath.
    + subst path. now rewrite !flat_map_concat_map, map_map.
  - rewrite Forall_map. cbn [snd]. rewrite Forall_forall. intros i Hi.
    apply in_seq in Hi. rewrite wrapU32_small by lia.
    split.
    + apply Z.div_pos; lia.
    + apply Z.div_lt_upper_bound; lia.
Qed.

End DeviceFacts.

(** A disk of 63 sectors per track, 255 heads and 1000 cylinders. *)
Lemma usable_sectors_witness :
  let disk := LibPartedDevices.mkPedDisk 63 255 1000 "msdos" Datatypes.None in
  LibPartedDevices.firstUsableSector (Some disk) = 63
  /\ LibPartedDevices.lastUsableSector (Some disk) = 63 * 255 * 1000 - 1
  /\ (LibPartedDevices.firstUsableSector (Some disk)
      <= LibPartedDevices.lastUsableSector (Some disk)
      <-> 2 <= 255 * 1000).
Proof.
  intros disk.
  apply (proj1 (usable_sectors disk)); cbn; (reflexivity || lia).
Defined.


(** Three devices, the second a device-mapper device, the third one that
    cannot be scanned. *)
Lemma scanDevices_kept_witness :
  let devices :=
    [ LibPartedDevices.mkPedDevice 1 false "/dev/sda";
      LibPartedDevices.mkPedDevice 12 false "/dev/dm-0";
      LibPartedDevices.mkPedDevice 1 false "/dev/sdb" ] in
  let scanDevice := fun node : string =>
    if String.eqb node "/dev/sda" then Some node else Datatypes.None in
  let out := LibPartedDevices.scanDevices 12 18 scanDevice false devices in
  map fst (LibPartedDevices.progress out) = ["/dev/sda"; "/dev/sdb"]%string
  /\ LibPartedDevices.result out = ["/dev/sda"%string]
  /\ Forall (fun report => 0 <= snd report < 100) (LibPartedDevices.progress out).
Proof.
  intros devices scanDevice out.
  apply (scanDevices_kept 12 18 string scanDevice false devices).
  cbn. lia.
Defined.

(** ** The scan: what a partition gets from its record *)

Section ScanMoreFacts.

Import LibPartedBackend.

Variable FileSystem_detectFileSystem : string -> FileSystem.Type_.
Variable luks_mapperName : string -> string.
Variable isMounted : string -> bool.
Variable mountPoints : list KMountPoint.
Variable numberOfPath : string -> Z.
Variable findPartitionBySector :
  PartitionTable.t -> Z -> PartitionRole.Roles -> option PartitionNode.

Let newPartition :=
  newPartition FileSystem_detectFileSystem luks_mapperName isMounted mountPoints
    numberOfPath findPartitionBySector.
Let scanPartition :=
  scanPartition FileSystem_detectFileSystem luks_mapperName isMounted mountPoints
    numberOfPath findPartitionBySector.
Let scanLoop :=
  scanLoop FileSystem_detectFileSystem luks_mapperName isMounted mountPoints
    numberOfPath findPartitionBySector.

(** What a partition takes over from the record it was made for. *)
Let fromRecord (part : Partition.t) (pedPartition : PedPartition) : Prop :=
  Partition.firstSector part = geom_start pedPartition
  /\ Partition.lastSector part = geom_end pedPartition
  /\ Partition.partitionPath part = fromUtf8 (path pedPartition)
  /\ Partition.roles part
     = (if type pedPartition =? PED_PARTITION_NORMAL then [PartitionRole.Primary]
        else if type pedPartition =? PED_PARTITION_EXTENDED
        then [PartitionRole.Extended]
        else [PartitionRole.Logical])
  /\ FileSystem.type (Partition.fileSystem part)
     = (if type pedPartition =? PED_PARTITION_EXTENDED
        then FileSystem.Extended
        else detectFileSystem FileSystem_detectFileSystem pedPartition)
  /\ Partition.children part = [].

Lemma resolveMount_type (fs : FileSystem.t) (node : string) (pedBusy : bool) :
  FileSystem.type
    (fst (fst (resolveMount luks_mapperName isMounted mountPoints fs node pedBusy)))
  = FileSystem.type fs.
Proof.
  unfold resolveMount.
  destruct (FileSystem.Type_eqb (FileSystem.type fs) FileSystem.Luks);
    [| reflexivity].
  now destruct (negb (isEmpty (luks_mapperName node))).
Qed.

Lemma newPartition_fromRecord (pt : PartitionTable.t) (pedPartition : PedPartition)
  (part : Partition.t) :
  newPartition pt pedPartition = Some part -> fromRecord part pedPartition.
Proof.
  subst newPartition fromRecord. unfold LibPartedBackend.newPartition, classify.
  destruct (num pedPartition <? 1); [discriminate |].
  destruct (type pedPartition =? PED_PARTITION_NORMAL) eqn:En;
    [apply Z.eqb_eq in En; rewrite En;
     change (PED_PARTITION_NORMAL =? PED_PARTITION_EXTENDED) with false
    | destruct (type pedPartition =? PED_PARTITION_EXTENDED);
       [| destruct (type pedPartition =? PED_PARTITION_LOGICAL); [| discriminate]]];
    match goal with
    | |- context [resolveMount ?m ?i ?mp ?fs ?node ?b] =>
        pose proof (resolveMount_type fs node b) as Ht;
        destruct (resolveMount m i mp fs node b) as [[fs' mp'] m']
    end;
    cbn [fst] in Ht; intros H; injection H as <-;
    cbn [Partition.firstSector Partition.lastSector Partition.partitionPath
         Partition.roles Partition.fileSystem Partition.children];
    rewrite Ht; repeat split.
Qed.



(** X12. A partition whose file system is not a LUKS container is mounted
    when libparted says the raw node is busy, and its mount point is the one
    the mount table has for the raw node; neither the mapper name nor the
    mount check of the helpers is consulted. *)
Theorem plain_mount_state_from_node (pt : PartitionTable.t)
  (pedPartition : PedPartition) (part : Partition.t) :
  newPartition pt pedPartition = Some part ->
  FileSystem.type (Partition.fileSystem part) <> FileSystem.Luks ->
  Partition.isMounted part = busy pedPartition
  /\ Partition.mountPoint part
     = mountPointOf mountPoints (fromUtf8 (path pedPartition))
  /\ (forall (luks_mapperName' : string -> string) (isMounted' : string -> bool),
         LibPartedBackend.newPartition FileSystem_detectFileSystem luks_mapperName'
           isMounted' mountPoints numberOfPath findPartitionBySector pt pedPartition
         = Some part).
Proof.
  subst newPartition. unfold LibPartedBackend.newPartition.
  destruct (num pedPartition <? 1); [discriminate |].
  destruct (classify pedPartition _) as [[r t]|]; [| discriminate].
  unfold resolveMount. cbn [FileSystemFactory_create FileSystem.type].
  destruct (FileSystem.Type_eqb t FileSystem.Luks) eqn:Et.
  - apply Type_eqb_eq in Et. subst t.
    destruct (negb (isEmpty _)); intros H Hn; injection H as <-;
      cbn in Hn; congruence.
  - intros H _. injection H as <-. cbn. repeat split.
Qed.

(** X13. The scan gives a partition the role Primary or Logical alone, so
    [canDelete] on a partition made for a record that is not an extended
    partition looks at nothing but the mounted state: it can be deleted
    exactly when it is not mounted, be it an encrypted container, open or
    closed, or not. *)
Theorem canDelete_scanned (pt : PartitionTable.t) (pedPartition : PedPartition)
  (part : Partition.t) :
  newPartition pt pedPartition = Some part ->
  type pedPartition <> PED_PARTITION_EXTENDED ->
  DeleteOperation.canDelete (Some part) = negb (Partition.isMounted part).
Proof.
  intros H Hne. apply newPartition_fromRecord in H.
  destruct H as [_ [_ [_ [Hr _]]]].
  apply Z.eqb_neq in Hne. rewrite Hne in Hr.
  unfold DeleteOperation.canDelete.
  destruct (Partition.isMounted part); [reflexivity |].
  rewrite Hr. now destruct (type pedPartition =? PED_PARTITION_NORMAL).
Qed.

End ScanMoreFacts.

(** The logical partition [/dev/sda5] of the sample records is not a LUKS
    container and not busy: it is recorded as not mounted. *)
Lemma plain_mount_state_from_node_witness :
  let ped := LibPartedBackend.mkPedPartition 5 LibPartedBackend.PED_PARTITION_LOGICAL
               100000 200000 (Some "/dev/sda5"%string) false in
  let part :=
    Partition.mk [] [PartitionRole.Logical]
      (FileSystem.mk FileSystem.Ext2 100000 200000 Datatypes.None)
      100000 200000 "/dev/sda5" 5 EmptyString false [] in
  Partition.isMounted part = false.
Proof.
  intros ped part.
  refine (proj1 (plain_mount_state_from_node Samples.detect Samples.mapperName
                   Samples.mounted Samples.mountTable Samples.numberOfPath
                   PartitionNodes.findPartitionBySector
                   (Device.partitionTable Samples.emptyDisk) ped part eq_refl _)).
  discriminate.
Defined.

(** The open container on [/dev/sda1] of the sample records, once it is no
    longer mounted, can be deleted. *)
Lemma canDelete_scanned_witness :
  let part :=
    Partition.mk [] [PartitionRole.Primary]
      (FileSystem.mk FileSystem.Luks 2048 99999
         (Some (FileSystem.mkLuks true false (Some "/dev/mapper/luks-sda1"%string))))
      2048 99999 "/dev/sda1" 1 EmptyString false [] in
  DeleteOperation.canDelete (Some part) = true.
Proof.
  intros part.
  refine (canDelete_scanned Samples.detect Samples.mapperName (fun _ => false) []
            Samples.numberOfPath PartitionNodes.findPartitionBySector
            (Device.partitionTable Samples.emptyDisk) Samples.ped_sda1 part
            eq_refl _).
  discriminate.
Defined.

(** ** MovePhysicalVolumeJob: the calls made *)

Section MovePhysicalVolumeJobCallFacts.

Import MovePhysicalVolumeJob.

Variable Lvm : Type.
Variable getPVs : Lvm -> string -> list string.
Variable movePV : Lvm -> string -> list string -> bool * Lvm.

Lemma moveLoop_calls_prefix (destinations partList : list string) :
  forall acc : Outcome Lvm,
    exists made rest,
      calls (moveLoop movePV destinations partList acc) = calls acc ++ made
      /\ partList = map partPath made ++ rest
      /\ (rest <> [] -> rval (moveLoop movePV destinations partList acc) = false).
Proof.
  induction partList as [|p partList IH]; intros acc; cbn [moveLoop].
  - exists [], []. split; [now rewrite app_nil_r | split; [reflexivity |]].
    intros H. now elim H.
  - destruct (movePV (lvm acc) p destinations) as [r st'].
    destruct r.
    + destruct (IH {| rval := true; lvm := st';
                      calls := calls acc ++ [mkCall p destinations] |})
        as [made [rest [Hc [Hp Hr]]]].
      exists (mkCall p destinations :: made), rest.
      cbn [calls] in Hc. rewrite Hc, <- app_assoc. cbn [app map partPath].
      split; [reflexivity | split; [now rewrite <- Hp | exact Hr]].
    + exists [mkCall p destinations], partList. cbn [calls rval map partPath app].
      split; [reflexivity | split; reflexivity].
Qed.

(** X14. Whatever the moves answer, the paths the job passes to [movePV]
    are a beginning of the move list, each once and in its order; the job
    reports failure whenever it stops before the end of the list. *)
Theorem run_moves_prefix (st : Lvm) (deviceName : string) (partList : list string) :
  let out := run getPVs movePV st deviceName partList in
  exists rest,
    partList = map partPath (calls out) ++ rest
    /\ (rest = [] \/ rval out = false).
Proof.
  intros out. subst out. unfold run.
  destruct (moveLoop_calls_prefix
              (destinationsFor (getPVs st deviceName) partList) partList
              {| rval := false; lvm := st; calls := [] |})
    as [made [rest [Hc [Hp Hr]]]].
  cbn [calls app] in Hc. exists rest. rewrite Hc. split; [exact Hp |].
  destruct rest; [now left | right]. apply Hr. discriminate.
Qed.

End MovePhysicalVolumeJobCallFacts.
